(** * w2gqueuebot: the link attribution engine and the URL canonicaliser

    A shallow embedding of the Telegram bot's message handler (the entry
    module)
    and of the YouTube canonicaliser of [src/w2g.js], with the properties
    the specification states about them.

    Conventions of the embedding.
    - A JavaScript string is a [string]; each character stands for one
      UTF-16 code unit (code units 0..255).  A string is falsy exactly
      when it is empty.
    - A JavaScript number that holds an identifier, an offset or a time
      stamp is a [Z]; it is falsy exactly when it is [0].
    - [null]/[undefined] is [None].
    - The three module-level [Map]s of the handler, and the room table
      behind [getRoom]/[setRoom], are the fields of [state]; every
      function that reads or writes them takes and returns the state.
    - [Date.now()] is the [now] argument; everything the network decides
      (room creation, playlist submission, delivery of a reply) is read
      from an [env] record. *)

From stdpp Require Import base option list gmap strings.
From Stdlib Require Import ZArith Ascii String Lia.

Set Warnings "-register-all,-clear-no-such-hyp".

Local Open Scope string_scope.
Local Open Scope list_scope.
Local Open Scope Z_scope.

(** ** JavaScript primitives *)

Module Js.

(** Truthiness of a string, of a number and of a nullable string. *)
Definition truthy_str (s : string) : bool :=
  match s with EmptyString => false | String _ _ => true end.

Definition truthy_num (n : Z) : bool := negb (n =? 0).

Definition truthy_ostr (o : option string) : bool :=
  match o with Some s => truthy_str s | None => false end.

(** [x || null] on a nullable string: a falsy value becomes [null]. *)
Definition or_null_str (o : option string) : option string :=
  match o with
  | Some s => if truthy_str s then Some s else None
  | None => None
  end.

(** [x || null] on a nullable number. *)
Definition or_null_num (o : option Z) : option Z :=
  match o with
  | Some n => if truthy_num n then Some n else None
  | None => None
  end.

Definition str_len (s : string) : Z := Z.of_nat (String.length s).

Definition clamp (len n : Z) : Z := Z.min (Z.max n 0) len.

(** [s.substring(a, b)]: both indices are clamped to [0, length] and
    swapped when out of order. *)
Definition substring (s : string) (a b : Z) : string :=
  let a' := clamp (str_len s) a in
  let b' := clamp (str_len s) b in
  let from := Z.min a' b' in
  let to := Z.max a' b' in
  String.substring (Z.to_nat from) (Z.to_nat (to - from)) s.

(** [s.slice(1)]. *)
Definition slice1 (s : string) : string :=
  match s with EmptyString => EmptyString | String _ rest => rest end.

Definition lower_char (c : ascii) : ascii :=
  let n := nat_of_ascii c in
  if ((65 <=? n)%nat && (n <=? 90)%nat)
     || ((192 <=? n)%nat && (n <=? 222)%nat && negb (n =? 215)%nat)
  then ascii_of_nat (n + 32) else c.

(** [s.toLowerCase()]. *)
Fixpoint toLowerCase (s : string) : string :=
  match s with
  | EmptyString => EmptyString
  | String c rest => String (lower_char c) (toLowerCase rest)
  end.

(** [s.includes(needle)]. *)
Fixpoint includes (needle s : string) : bool :=
  String.prefix needle s ||
  match s with
  | EmptyString => false
  | String _ rest => includes needle rest
  end.

(** [s.replace('@', '')]: only the first occurrence is removed. *)
Fixpoint remove_first (c : ascii) (s : string) : string :=
  match s with
  | EmptyString => EmptyString
  | String d rest => if Ascii.eqb c d then rest else String d (remove_first c rest)
  end.

(** [s.split(sep)] for a one-character separator. *)
Fixpoint split_aux (sep : ascii) (s acc : string) : list string :=
  match s with
  | EmptyString => [acc]
  | String c rest =>
      if Ascii.eqb c sep then acc :: split_aux sep rest EmptyString
      else split_aux sep rest (acc +:+ String c EmptyString)
  end.

Definition split (sep : ascii) (s : string) : list string :=
  split_aux sep s EmptyString.

End Js.

(** ** Telegram data (the fields the handler reads) *)

Module Entity.
Record t := mk {
  type : string;
  offset : Z;
  length : Z;
  url : option string;
}.
End Entity.

Module User.
Record t := mk { id : Z; is_bot : bool }.
End User.

Module Chat.
Record t := mk { id : Z; type : string }.
End Chat.

Module Message.
(** [date] is [0] when the field is missing; [reply_to_message] is a
    message of the same shape. *)
Inductive t := mk {
  message_id : Z;
  chat : Chat.t;
  from : option User.t;
  date : Z;
  text : option string;
  caption : option string;
  entities : option (list Entity.t);
  caption_entities : option (list Entity.t);
  reply_to_message : option t;
}.

(** The same message with other text and caption. *)
Definition with_text (m : t) (tx cp : option string) : t :=
  mk (message_id m) (chat m) (from m) (date m) tx cp
     (entities m) (caption_entities m) (reply_to_message m).
End Message.

Module BotInfo.
(** [id = 0] and [username = ""] stand for missing fields. *)
Record t := mk { id : Z; username : string }.
End BotInfo.

(** The Telegraf context of a message update: [ctx.chat] and [ctx.from]
    are getters for [ctx.message.chat] and [ctx.message.from];
    [bot_botInfo] is the [bot.botInfo] of the module-level bot object. *)
Module Ctx.
Record t := mk {
  message : Message.t;
  botInfo : option BotInfo.t;
  bot_botInfo : option BotInfo.t;
}.
Definition chat (c : t) : Chat.t := Message.chat (message c).
Definition from (c : t) : option User.t := Message.from (message c).
End Ctx.

(** ** Entity extractor *)

(** [message?.text || message?.caption || ''] *)
Definition getText (message : Message.t) : string :=
  match Js.or_null_str (Message.text message) with
  | Some s => s
  | None =>
      match Js.or_null_str (Message.caption message) with
      | Some s => s
      | None => ""
      end
  end.

(** [message.entities || message.caption_entities || []]: an array, even
    an empty one, is truthy. *)
Definition entitiesOf (message : Message.t) : list Entity.t :=
  match Message.entities message with
  | Some es => es
  | None =>
      match Message.caption_entities message with
      | Some es => es
      | None => []
      end
  end.

(** The body of the [for] loop of [extractFromEntities]. *)
Fixpoint extractLoop (text : string) (entities : list Entity.t) : option string :=
  match entities with
  | [] => None
  | entity :: rest =>
      let urlText :=
        if String.eqb (Entity.type entity) "url"
        then Js.or_null_str
               (Some (Js.substring text (Entity.offset entity)
                        (Entity.offset entity + Entity.length entity)))
        else None in
      match urlText with
      | Some u => Some u
      | None =>
          if String.eqb (Entity.type entity) "text_link"
             && Js.truthy_ostr (Entity.url entity)
          then Entity.url entity
          else extractLoop text rest
      end
  end.

(** [extractFromEntities(message)]; the [!message] guard is discharged by
    the callers, which pass a message that exists. *)
Definition extractFromEntities (message : Message.t) : option string :=
  extractLoop (getText message) (entitiesOf message).

(** ** The platform's URL parser *)

Module URL.
(** The fields of a parsed [URL] object the code reads: [href] is what
    [toString()] returns, [searchParams] the decoded query pairs. *)
Record t := mk {
  protocol : string;
  hostname : string;
  pathname : string;
  searchParams : list (string * string);
  href : string;
}.

(** [url.searchParams.get(name)]: the first value under [name]. *)
Fixpoint get (name : string) (params : list (string * string)) : option string :=
  match params with
  | [] => None
  | (k, v) :: rest => if String.eqb k name then Some v else get name rest
  end.
End URL.

(** The WHATWG URL implementation of the runtime is not part of the
    repository: [new_URL s] is [new URL(s)], [None] when it throws, and
    [searchParams_toString] serialises query pairs. *)
Class Platform := {
  new_URL : string → option URL.t;
  searchParams_toString : list (string * string) → string;
}.

(** ** Validator *)

Module Validated.
Record t := mk { url : option string; invalid : bool }.
End Validated.

(** [candidate.match(/^https?:\/\//i)] *)
Definition hasHttpPrefix (candidate : string) : bool :=
  String.prefix "http://" (Js.toLowerCase candidate)
  || String.prefix "https://" (Js.toLowerCase candidate).

(** Lines 45-48 of [validateCandidate]: the string handed to the parser. *)
Definition normalizeCandidate (url : string) : string :=
  if hasHttpPrefix url then url else "https://" +:+ url.

Definition isWebProtocol (protocol : string) : bool :=
  String.eqb (Js.toLowerCase protocol) "http:"
  || String.eqb (Js.toLowerCase protocol) "https:".

Definition validateCandidate `{Platform} (url : string) : Validated.t :=
  if negb (Js.truthy_str url) then Validated.mk None false
  else
    match new_URL (normalizeCandidate url) with
    | Some parsed =>
        if negb (isWebProtocol (URL.protocol parsed))
        then Validated.mk None false
        else Validated.mk (Some (URL.href parsed)) false
    | None => Validated.mk None true
    end.

(** ** Chat session state *)

Module Snapshot.
Record t := mk {
  chatId : Z;
  fromId : Z;
  date : Z;
  message_id : Z;
  url : option string;
}.
End Snapshot.

Module Bucket.
(** [{ set: Set<number>, queue: number[] }] *)
Record t := mk { set : gset Z; queue : list Z }.
Definition empty : t := mk ∅ [].
End Bucket.

(** Modelled from the spec: the persistence layer ([./db], [getRoom] and
    [setRoom]) is a table from chat to room key, one row per chat; it is
    the field [rooms].  The other three fields are the module-level maps
    of the handler. *)
Record state := mkState {
  promptWindows : gmap Z Z;
  lastUserMessages : gmap Z Snapshot.t;
  usedMessagesByChat : gmap Z Bucket.t;
  rooms : gmap Z string;
}.

Definition initialState : state := mkState ∅ ∅ ∅ ∅.

Definition PROMPT_GRACE_PERIOD_MS : Z := 60000.
Definition PREVIOUS_MESSAGE_WINDOW_MS : Z := 30000.

Definition setPromptWindows (st : state) (m : gmap Z Z) : state :=
  mkState m (lastUserMessages st) (usedMessagesByChat st) (rooms st).
Definition setLastUserMessages (st : state) (m : gmap Z Snapshot.t) : state :=
  mkState (promptWindows st) m (usedMessagesByChat st) (rooms st).
Definition setUsedMessagesByChat (st : state) (m : gmap Z Bucket.t) : state :=
  mkState (promptWindows st) (lastUserMessages st) m (rooms st).
Definition setRooms (st : state) (m : gmap Z string) : state :=
  mkState (promptWindows st) (lastUserMessages st) (usedMessagesByChat st) m.

(** *** Invitation window *)

Definition markPrompt (now : Z) (st : state) (chatId : Z) : state :=
  setPromptWindows st (<[chatId := now]> (promptWindows st)).

Definition isWithinPromptWindow (now : Z) (st : state) (chatId : Z) : bool :=
  match promptWindows st !! chatId with
  | None => false
  | Some lastPrompt =>
      if negb (Js.truthy_num lastPrompt) then false
      else now - lastPrompt <=? PROMPT_GRACE_PERIOD_MS
  end.

Definition consumePromptWindow (now : Z) (st : state) (chatId : Z) : bool * state :=
  let active := isWithinPromptWindow now st chatId in
  if active then (active, setPromptWindows st (delete chatId (promptWindows st)))
  else (active, st).

(** *** Anti-replay store *)

(** [getUsedBucket]: the bucket of the chat, created empty when missing. *)
Definition getUsedBucket (chatId : Z) (used : gmap Z Bucket.t)
  : Bucket.t * gmap Z Bucket.t :=
  match used !! chatId with
  | Some bucket => (bucket, used)
  | None => (Bucket.empty, <[chatId := Bucket.empty]> used)
  end.

(** The [for] loop of [markMessagesUsed]. *)
Fixpoint markLoop (ids : list Z) (bucket : Bucket.t) : Bucket.t :=
  match ids with
  | [] => bucket
  | id :: rest =>
      if negb (Js.truthy_num id) then markLoop rest bucket
      else
        let queue :=
          if bool_decide (id ∈ Bucket.set bucket) then Bucket.queue bucket
          else Bucket.queue bucket ++ [id] in
        markLoop rest (Bucket.mk ({[id]} ∪ Bucket.set bucket) queue)
  end.

(** The [while (bucket.queue.length > 20)] loop: [shift] takes the head. *)
Fixpoint evictLoop (set : gset Z) (queue : list Z) : Bucket.t :=
  match queue with
  | [] => Bucket.mk set queue
  | old :: rest =>
      if (20 <? List.length queue)%nat then evictLoop (set ∖ {[old]}) rest
      else Bucket.mk set queue
  end.

(** [markMessagesUsed(chatId, ids)] on the map of buckets; the bucket
    object is shared with the map, so its final value is what the map
    holds. *)
Definition markMessagesUsed (chatId : Z) (ids : list Z) (used : gmap Z Bucket.t)
  : gmap Z Bucket.t :=
  let '(bucket, used1) := getUsedBucket chatId used in
  let marked := markLoop ids bucket in
  <[chatId := evictLoop (Bucket.set marked) (Bucket.queue marked)]> used1.

Definition isMessageUsed (st : state) (chatId messageId : Z) : bool :=
  if negb (Js.truthy_num messageId) then false
  else
    match usedMessagesByChat st !! chatId with
    | None => false
    | Some bucket => bool_decide (messageId ∈ Bucket.set bucket)
    end.

(** *** Last-message slot *)

Definition snapshotUserMessage (now : Z) (message : Message.t) : option Snapshot.t :=
  match Message.from message with
  | None => None
  | Some from =>
      if User.is_bot from then None
      else
        let timestampMs :=
          if Js.truthy_num (Message.date message)
          then Message.date message * 1000 else now in
        let urlCandidate := extractFromEntities message in
        Some (Snapshot.mk (Chat.id (Message.chat message)) (User.id from)
                timestampMs (Message.message_id message) urlCandidate)
  end.

Definition rememberLastUserMessage (now : Z) (st : state) (message : Message.t) : state :=
  match snapshotUserMessage now message with
  | None => st
  | Some snapshot =>
      setLastUserMessages st
        (<[Snapshot.chatId snapshot := snapshot]> (lastUserMessages st))
  end.

(** [fromId] is [ctx.from?.id]. *)
Definition recentPreviousMessage (now : Z) (st : state) (chatId : Z)
    (fromId : option Z) : option Snapshot.t :=
  match lastUserMessages st !! chatId with
  | None => None
  | Some prev =>
      if match Js.or_null_num fromId with
         | Some f => negb (Snapshot.fromId prev =? f)
         | None => false
         end then None
      else if isMessageUsed st chatId (Snapshot.message_id prev) then None
      else if PREVIOUS_MESSAGE_WINDOW_MS <? now - Snapshot.date prev then None
      else Some prev
  end.

(** ** Candidate resolver *)

Module Candidate.
Record t := mk { raw : option string; sourceId : option Z }.
End Candidate.

Module Resolution.
Record t := mk {
  url : option string;
  invalid : bool;
  sourceMessageId : option Z;
}.
End Resolution.

(** [reply && !reply.from?.is_bot], as the reply it allows. *)
Definition usableReply (msg : Message.t) : option Message.t :=
  match Message.reply_to_message msg with
  | None => None
  | Some reply =>
      if match Message.from reply with
         | Some u => User.is_bot u
         | None => false
         end then None
      else Some reply
  end.

(** The candidate array of [findUrl], in the order it is built. *)
Definition candidatesOf (msg : Message.t) (previousMessage : option Snapshot.t)
  : list Candidate.t :=
  [ Candidate.mk (extractFromEntities msg) (Some (Message.message_id msg));
    match usableReply msg with
    | Some reply =>
        Candidate.mk (extractFromEntities reply) (Some (Message.message_id reply))
    | None => Candidate.mk None None
    end ]
  ++ match previousMessage with
     | Some prev =>
         if Js.truthy_ostr (Snapshot.url prev)
         then [Candidate.mk (Snapshot.url prev) (Some (Snapshot.message_id prev))]
         else []
     | None => []
     end.

(** The [for] loop of [findUrl]. *)
Fixpoint findLoop `{Platform} (candidates : list Candidate.t) : Resolution.t :=
  match candidates with
  | [] => Resolution.mk None false None
  | raw :: rest =>
      match Js.or_null_str (Candidate.raw raw) with
      | None => findLoop rest
      | Some candidate =>
          let result := validateCandidate candidate in
          if Js.truthy_ostr (Validated.url result)
          then Resolution.mk (Validated.url result) (Validated.invalid result)
                 (Js.or_null_num (Candidate.sourceId raw))
          else if Validated.invalid result
          then Resolution.mk (Validated.url result) (Validated.invalid result)
                 (Js.or_null_num (Candidate.sourceId raw))
          else findLoop rest
      end
  end.

Definition findUrl `{Platform} (ctx : Ctx.t) (previousMessage : option Snapshot.t)
  : Resolution.t :=
  findLoop (candidatesOf (Ctx.message ctx) previousMessage).

(** ** Trigger classifier *)

(** [ctx.botInfo?.username || bot.botInfo?.username || ''] *)
Definition rawUsername (ctx : Ctx.t) : string :=
  match Js.or_null_str (BotInfo.username <$> Ctx.botInfo ctx) with
  | Some u => u
  | None =>
      match Js.or_null_str (BotInfo.username <$> Ctx.bot_botInfo ctx) with
      | Some u => u
      | None => ""
      end
  end.

Definition mentionTag (ctx : Ctx.t) : string :=
  "@" +:+ Js.toLowerCase (Js.remove_first "@"%char (rawUsername ctx)).

Definition messageMentionsBot (ctx : Ctx.t) : bool :=
  let message := Ctx.message ctx in
  let text := getText message in
  existsb
    (λ entity,
       String.eqb (Entity.type entity) "mention"
       && String.eqb
            (Js.toLowerCase
               (Js.substring text (Entity.offset entity)
                  (Entity.offset entity + Entity.length entity)))
            (mentionTag ctx))
    (entitiesOf message)
  || Js.includes (mentionTag ctx) (Js.toLowerCase text).

(** [ctx.botInfo?.id || bot.botInfo?.id], [0] when both are missing. *)
Definition botId (ctx : Ctx.t) : Z :=
  match Js.or_null_num (BotInfo.id <$> Ctx.botInfo ctx) with
  | Some i => i
  | None =>
      match Ctx.bot_botInfo ctx with
      | Some b => BotInfo.id b
      | None => 0
      end
  end.

Definition isReplyToBot (ctx : Ctx.t) : bool :=
  match Message.reply_to_message (Ctx.message ctx) with
  | None => false
  | Some reply =>
      if negb (Js.truthy_num (botId ctx)) then false
      else
        match Message.from reply with
        | Some u => User.id u =? botId ctx
        | None => false
        end
  end.

Definition isPrivate (ctx : Ctx.t) : bool :=
  String.eqb (Chat.type (Ctx.chat ctx)) "private".

Definition shouldHandleMessage (now : Z) (st : state) (ctx : Ctx.t) : bool * state :=
  if isPrivate ctx then (true, st)
  else if messageMentionsBot ctx then (true, st)
  else if isReplyToBot ctx then (true, st)
  else consumePromptWindow now st (Chat.id (Ctx.chat ctx)).

(** ** Orchestrator *)

(** The reply texts: "Added ✅\nRoom: <link>", "That doesn’t look like a
    valid URL.", "Send me a link to add. Try /help" and "Couldn’t add
    that (W2G error). Try again.". *)
Module Reply.
Inductive t :=
| Added (roomLink : string)
| InvalidUrl
| PromptForLink
| AddFailed.
End Reply.

(** What the outside world decides during one activation of the handler:
    the clock, whether [createRoom] returns a room key or throws, whether
    [addToPlaylist] returns or throws, and whether [ctx.reply] delivers a
    given text or throws. *)
Record env := mkEnv {
  now : Z;
  createRoom_result : option string;
  addToPlaylist_ok : bool;
  reply_ok : Reply.t → bool;
}.

Definition buildRoomLink (streamkey : string) : string :=
  "https://w2g.tv/rooms/" +:+ streamkey.

(** [ensureRoom(chatId)]: [None] when [createRoom] throws. *)
Definition ensureRoom (e : env) (st : state) (chatId : Z) : option (string * state) :=
  match Js.or_null_str (rooms st !! chatId) with
  | Some streamkey => Some (streamkey, st)
  | None =>
      match createRoom_result e with
      | Some streamkey =>
          Some (streamkey, setRooms st (<[chatId := streamkey]> (rooms st)))
      | None => None
      end
  end.

(** The [catch] block: the failure notice, when it can be delivered. *)
Definition catchBlock (e : env) : list Reply.t :=
  if reply_ok e Reply.AddFailed then [Reply.AddFailed] else [].

(** [[sourceMessageId, ctx.message?.message_id].filter(Boolean)] *)
Definition idsToMark (sourceMessageId : option Z) (msg : Message.t) : list Z :=
  omap Js.or_null_num [sourceMessageId; Some (Message.message_id msg)].

(** The [try] and [catch] blocks of the handler. *)
Definition tryBlock (e : env) (st : state) (ctx : Ctx.t)
    (sourceMessageId : option Z) : state * list Reply.t :=
  let chatId := Chat.id (Ctx.chat ctx) in
  match ensureRoom e st chatId with
  | None => (st, catchBlock e)
  | Some (streamkey, st1) =>
      if negb (addToPlaylist_ok e) then (st1, catchBlock e)
      else if negb (reply_ok e (Reply.Added (buildRoomLink streamkey)))
      then (st1, catchBlock e)
      else
        (setUsedMessagesByChat st1
           (markMessagesUsed chatId (idsToMark sourceMessageId (Ctx.message ctx))
              (usedMessagesByChat st1)),
         [Reply.Added (buildRoomLink streamkey)])
  end.

(** The [finally] block of the handler. *)
Definition finallyBlock (now : Z) (st : state) (ctx : Ctx.t)
    (priorMessage : option Snapshot.t) : state :=
  let st1 :=
    match priorMessage with
    | Some _ =>
        setLastUserMessages st
          (delete (Chat.id (Ctx.chat ctx)) (lastUserMessages st))
    | None => st
    end in
  rememberLastUserMessage now st1 (Ctx.message ctx).

Definition isCommand (msg : Message.t) : bool :=
  existsb (λ entity, String.eqb (Entity.type entity) "bot_command") (entitiesOf msg).

(** [priorMessage] of the handler, read in state [st]. *)
Definition priorMessageOf (now : Z) (st : state) (ctx : Ctx.t) : option Snapshot.t :=
  if messageMentionsBot ctx
  then recentPreviousMessage now st (Chat.id (Ctx.chat ctx)) (User.id <$> Ctx.from ctx)
  else None.

(** [bot.on('message', ...)]: the new state and the replies delivered.  A
    reply that throws ends the activation where it stands (inside [try]
    it enters [catch], and [finally] runs in every case). *)
Definition handler `{Platform} (e : env) (st : state) (ctx : Ctx.t)
  : state * list Reply.t :=
  let msg := Ctx.message ctx in
  let chatId := Chat.id (Ctx.chat ctx) in
  if isCommand msg then (st, [])
  else
    let '(handle, st) := shouldHandleMessage (now e) st ctx in
    if negb handle then (rememberLastUserMessage (now e) st msg, [])
    else
      let priorMessage := priorMessageOf (now e) st ctx in
      let found := findUrl ctx priorMessage in
      let url := Resolution.url found in
      let invalid := Resolution.invalid found in
      let sourceMessageId := Resolution.sourceMessageId found in
      let invalidFromCurrentMessage :=
        invalid && bool_decide (sourceMessageId = Some (Message.message_id msg)) in
      if invalidFromCurrentMessage && negb (Js.truthy_ostr url) then
        if reply_ok e Reply.InvalidUrl
        then (rememberLastUserMessage (now e) st msg, [Reply.InvalidUrl])
        else (st, [])
      else if negb (Js.truthy_ostr url) || invalid then
        let explicitInteraction :=
          messageMentionsBot ctx || isReplyToBot ctx || isPrivate ctx in
        if negb explicitInteraction
        then (rememberLastUserMessage (now e) st msg, [])
        else if reply_ok e Reply.PromptForLink
        then (rememberLastUserMessage (now e) (markPrompt (now e) st chatId) msg,
              [Reply.PromptForLink])
        else (st, [])
      else
        let '(st2, replies) := tryBlock e st ctx sourceMessageId in
        (finallyBlock (now e) st2 ctx priorMessage, replies).

(** ** [src/w2g.js]: YouTube canonicaliser *)

Definition youtubeIdFromUrl `{Platform} (urlString : string) : option string :=
  match new_URL urlString with
  | None => None
  | Some url =>
      if String.eqb (URL.hostname url) "youtu.be"
      then Some (Js.slice1 (URL.pathname url))
      else if Js.includes "youtube.com" (URL.hostname url) then
        if Js.truthy_ostr (URL.get "v" (URL.searchParams url))
        then URL.get "v" (URL.searchParams url)
        else
          let pathParts :=
            List.filter Js.truthy_str (Js.split "/"%char (URL.pathname url)) in
          if (2 <=? List.length pathParts)%nat then pathParts !! 1%nat
          else None
      else None
  end.

(** [canonical.toString()] for the watch URL carrying the given query. *)
Definition watchUrl `{Platform} (params : list (string * string)) : string :=
  "https://www.youtube.com/watch?" +:+ searchParams_toString params.

Definition canonicalizeUrl `{Platform} (urlString : string) : string :=
  match Js.or_null_str (youtubeIdFromUrl urlString) with
  | Some youtubeId =>
      match new_URL urlString with
      | Some url =>
          let t :=
            match Js.or_null_str (URL.get "t" (URL.searchParams url)) with
            | Some t => Some t
            | None => URL.get "start" (URL.searchParams url)
            end in
          watchUrl
            (("v", youtubeId)
             :: match Js.or_null_str t with
                | Some t => [("t", t)]
                | None => []
                end)
      | None => urlString
      end
  | None => urlString
  end.

(** ** Commands *)

(** The replies of [/start], [/room] and [/clear]: the welcome text,
    "Room: <link>", "Couldn’t load the room (W2G error). Try again.",
    "Queue cleared ✅\nRoom: <link>" and "Couldn’t clear the queue (W2G
    error). Try again.". *)
Module CommandReply.
Inductive t :=
| Welcome
| Room (roomLink : string)
| RoomFailed
| Cleared (roomLink : string)
| ClearFailed.
End CommandReply.

(** [bot.start]: the welcome reply, then [markPrompt]; [deliver] tells
    whether [ctx.reply] delivers a text or throws. *)
Definition startCommand (now : Z) (deliver : CommandReply.t → bool) (st : state)
    (ctx : Ctx.t) : state * list CommandReply.t :=
  if deliver CommandReply.Welcome
  then (markPrompt now st (Chat.id (Ctx.chat ctx)), [CommandReply.Welcome])
  else (st, []).

(** [bot.command('room')] *)
Definition roomCommand (e : env) (deliver : CommandReply.t → bool) (st : state)
    (ctx : Ctx.t) : state * list CommandReply.t :=
  let failed :=
    if deliver CommandReply.RoomFailed then [CommandReply.RoomFailed] else [] in
  match ensureRoom e st (Chat.id (Ctx.chat ctx)) with
  | Some (streamkey, st1) =>
      if deliver (CommandReply.Room (buildRoomLink streamkey))
      then (st1, [CommandReply.Room (buildRoomLink streamkey)])
      else (st1, failed)
  | None => (st, failed)
  end.

(** [bot.command('clear')] *)
Definition clearCommand (e : env) (deliver : CommandReply.t → bool) (st : state)
    (ctx : Ctx.t) : state * list CommandReply.t :=
  let failed :=
    if deliver CommandReply.ClearFailed then [CommandReply.ClearFailed] else [] in
  match createRoom_result e with
  | Some streamkey =>
      let st1 := setRooms st (<[Chat.id (Ctx.chat ctx) := streamkey]> (rooms st)) in
      if deliver (CommandReply.Cleared (buildRoomLink streamkey))
      then (st1, [CommandReply.Cleared (buildRoomLink streamkey)])
      else (st1, failed)
  | None => (st, failed)
  end.

(** ** [src/w2g.js]: room creation and HTML entities *)

(** What [createRoom] sees of the room service: [res.ok] and the
    [streamkey] of the JSON body. *)
Module RoomResponse.
Record t := mk { ok : bool; streamkey : option string }.
End RoomResponse.

(** [createRoom]: [None] when it throws; the response [None] stands for
    every failure before a response is read (no API key, [fetch]
    throwing). *)
Definition createRoom (response : option RoomResponse.t) : option string :=
  match response with
  | None => None
  | Some res =>
      if negb (RoomResponse.ok res) then None
      else Js.or_null_str (RoomResponse.streamkey res)
  end.

(** [str.replace(/pat/g, rep)] for a literal, non-empty pattern: matches
    are taken left to right and do not overlap; [skip] counts the
    characters of the current match still to be passed over. *)
Fixpoint replaceAllFrom (pat rep : string) (skip : nat) (s : string) : string :=
  match s with
  | EmptyString => EmptyString
  | String c rest =>
      match skip with
      | S k => replaceAllFrom pat rep k rest
      | O =>
          if String.prefix pat s
          then rep +:+ replaceAllFrom pat rep (String.length pat - 1) rest
          else String c (replaceAllFrom pat rep 0 rest)
      end
  end.

Definition replaceAll (pat rep s : string) : string := replaceAllFrom pat rep 0 s.

(** [decodeHtmlEntities(str)] on a string; the five replacements run one
    after the other. *)
Definition decodeHtmlEntities (str : string) : string :=
  if negb (Js.truthy_str str) then str
  else
    replaceAll "&#39;" "'"
      (replaceAll "&quot;" (String "034"%char EmptyString)
         (replaceAll "&gt;" ">"
            (replaceAll "&lt;" "<"
               (replaceAll "&amp;" "&" str)))).

(** The same message as a reply to [reply], or to nothing. *)
Definition withReply (m : Message.t) (reply : option Message.t) : Message.t :=
  Message.mk (Message.message_id m) (Message.chat m) (Message.from m)
    (Message.date m) (Message.text m) (Message.caption m)
    (Message.entities m) (Message.caption_entities m) reply.

(** ** Specification-side definitions *)

(** Two states that agree on every chat but [chatId]. *)
Definition sameElsewhere (chatId : Z) (st st' : state) : Prop :=
  ∀ other, other ≠ chatId →
    promptWindows st' !! other = promptWindows st !! other
    ∧ lastUserMessages st' !! other = lastUserMessages st !! other
    ∧ usedMessagesByChat st' !! other = usedMessagesByChat st !! other
    ∧ rooms st' !! other = rooms st !! other.

(** The time parameter [canonicalizeUrl] carries over: [t], or else
    [start], when it is not empty. *)
Definition timeParams (url : URL.t) : list (string * string) :=
  match Js.or_null_str
          match Js.or_null_str (URL.get "t" (URL.searchParams url)) with
          | Some t => Some t
          | None => URL.get "start" (URL.searchParams url)
          end with
  | Some t => [("t", t)]
  | None => []
  end.

(** The context of the same update with another message. *)
Definition ctxWith (ctx : Ctx.t) (m : Message.t) : Ctx.t :=
  Ctx.mk m (Ctx.botInfo ctx) (Ctx.bot_botInfo ctx).


(** What one annotation offers the extractor: the non-empty substring of
    a URL span, or the non-empty attached URL of a text link. *)
Definition yields (text : string) (entity : Entity.t) (u : string) : Prop :=
  u ≠ "" ∧
  ((Entity.type entity = "url" ∧
    u = Js.substring text (Entity.offset entity)
          (Entity.offset entity + Entity.length entity))
   ∨ (Entity.type entity = "text_link" ∧ Entity.url entity = Some u)).

(** The extractor as the specification words it: every URL span is tried
    before any text link. *)
Fixpoint firstUrlSpan (text : string) (entities : list Entity.t) : option string :=
  match entities with
  | [] => None
  | entity :: rest =>
      if String.eqb (Entity.type entity) "url"
         && Js.truthy_str (Js.substring text (Entity.offset entity)
                             (Entity.offset entity + Entity.length entity))
      then Some (Js.substring text (Entity.offset entity)
                   (Entity.offset entity + Entity.length entity))
      else firstUrlSpan text rest
  end.

Fixpoint firstTextLink (entities : list Entity.t) : option string :=
  match entities with
  | [] => None
  | entity :: rest =>
      if String.eqb (Entity.type entity) "text_link"
         && Js.truthy_ostr (Entity.url entity)
      then Entity.url entity
      else firstTextLink rest
  end.

Definition extractUrlSpansFirst (message : Message.t) : option string :=
  match firstUrlSpan (getText message) (entitiesOf message) with
  | Some u => Some u
  | None => firstTextLink (entitiesOf message)
  end.

(** A message none of whose annotations is a URL span or a text link. *)
Definition noLinkAnnotations (message : Message.t) : Prop :=
  ∀ entity, entity ∈ entitiesOf message →
    Entity.type entity ≠ "url" ∧ Entity.type entity ≠ "text_link".

(** ** Example data *)

(** The parser's answers on the strings the examples use; every other
    string is taken not to parse. *)
Definition exampleParse (s : string) : option URL.t :=
  if String.eqb s "https://example.com/a"
  then Some (URL.mk "https:" "example.com" "/a" [] "https://example.com/a")
  else if String.eqb s "https://www.youtube.com/watch?v=abc123"
  then Some (URL.mk "https:" "www.youtube.com" "/watch" [("v", "abc123")]
               "https://www.youtube.com/watch?v=abc123")
  else None.

Fixpoint exampleSerialize (params : list (string * string)) : string :=
  match params with
  | [] => ""
  | [(k, v)] => k +:+ "=" +:+ v
  | (k, v) :: rest => k +:+ "=" +:+ v +:+ "&" +:+ exampleSerialize rest
  end.

Definition examplePlatform : Platform :=
  {| new_URL := exampleParse; searchParams_toString := exampleSerialize |}.

Definition groupChat : Chat.t := Chat.mk (-100) "group".
Definition privateChat : Chat.t := Chat.mk 55 "private".
Definition alice : User.t := User.mk 7 false.
Definition otherBot : User.t := User.mk 9 true.
Definition theBot : BotInfo.t := BotInfo.mk 42 "QueueBot".

Definition ctxOf (m : Message.t) : Ctx.t := Ctx.mk m (Some theBot) (Some theBot).

(** "see https://example.com/a" with a text link laid over "see" and a
    URL span over the address. *)
Definition msgLinkBeforeSpan : Message.t :=
  Message.mk 1 groupChat (Some alice) 1000 (Some "see https://example.com/a") None
    (Some [Entity.mk "text_link" 0 3 (Some "https://other.example/b");
           Entity.mk "url" 4 21 None])
    None None.

(** A plain message with a URL span. *)
Definition msgWithUrl (id : Z) (c : Chat.t) (sender : option User.t) : Message.t :=
  Message.mk id c sender 1000 (Some "https://example.com/a") None
    (Some [Entity.mk "url" 0 21 None]) None None.

(** "@queuebot" with its mention annotation, optionally a reply. *)
Definition msgMention (id : Z) (sender : option User.t) (reply : option Message.t)
  : Message.t :=
  Message.mk id groupChat sender 1010 (Some "@queuebot") None
    (Some [Entity.mk "mention" 0 9 None]) None reply.

(** Plain chatter, no annotations. *)
Definition msgPlain (id : Z) (c : Chat.t) (sender : option User.t) : Message.t :=
  Message.mk id c sender 1010 (Some "hello there") None None None None.

(** The anti-replay store as the specification describes it: queue and
    set hold the same ids, none twice, and at most twenty of them. *)
Definition bucketOk (bucket : Bucket.t) : Prop :=
  NoDup (Bucket.queue bucket)
  ∧ (∀ id, id ∈ Bucket.set bucket ↔ id ∈ Bucket.queue bucket)
  ∧ (List.length (Bucket.queue bucket) ≤ 20)%nat.

Definition storeOk (used : gmap Z Bucket.t) : Prop :=
  ∀ chatId bucket, used !! chatId = Some bucket → bucketOk bucket.

(** The bucket [markMessagesUsed] starts from. *)
Definition bucketBefore (chatId : Z) (used : gmap Z Bucket.t) : Bucket.t :=
  default Bucket.empty (used !! chatId).

(** A remembered message of alice's, carrying a link, in the group. *)
Definition snapA : Snapshot.t :=
  Snapshot.mk (-100) 7 1000000 1 (Some "https://example.com/a").

Definition stRemembered : state :=
  mkState ∅ {[ (-100) := snapA ]} ∅ ∅.

(** The same remembered message, already consumed by an earlier add. *)
Definition stUsed : state :=
  mkState ∅ {[ (-100) := snapA ]} {[ (-100) := Bucket.mk {[ 1 ]} [1] ]} ∅.

(** The group with an invitation window opened at 1000000. *)
Definition stPrompted : state :=
  mkState {[ (-100) := 1000000 ]} ∅ ∅ ∅.

(** "@queuebot https://example.com/a": a mention and a URL span. *)
Definition msgMentionUrl (id : Z) (sender : option User.t) : Message.t :=
  Message.mk id groupChat sender 1010 (Some "@queuebot https://example.com/a") None
    (Some [Entity.mk "mention" 0 9 None; Entity.mk "url" 10 21 None]) None None.

(** Ten seconds after the remembered message: the room service answers,
    or is down. *)
Definition envUp : env := mkEnv 1010000 (Some "room1") true (λ _, true).
Definition envDown : env := mkEnv 1010000 None false (λ _, true).

(** A parsed URL that carries no video id: nothing usable under [v], and
    nothing after the slash of a youtu.be path or fewer than two segments
    in any other path. *)
Definition noVideoId (url : URL.t) : Prop :=
  Js.truthy_ostr (URL.get "v" (URL.searchParams url)) = false
  ∧ (URL.hostname url = "youtu.be" → Js.slice1 (URL.pathname url) = "")
  ∧ (URL.hostname url ≠ "youtu.be" →
     (List.length (List.filter Js.truthy_str (Js.split "/"%char (URL.pathname url)))
      < 2)%nat).

(** A character that is one of the two cases of a letter. *)
Definition letterIs (lower upper c : ascii) : Prop := c = lower ∨ c = upper.

(** A string that begins with http:// or https://, in any letter case. *)
Definition startsWithHttp (s : string) : Prop :=
  ∃ c1 c2 c3 c4 rest,
    letterIs "h" "H" c1 ∧ letterIs "t" "T" c2
    ∧ letterIs "t" "T" c3 ∧ letterIs "p" "P" c4
    ∧ (s = String c1 (String c2 (String c3 (String c4 ("://" +:+ rest))))
       ∨ ∃ c5, letterIs "s" "S" c5
               ∧ s = String c1 (String c2 (String c3 (String c4
                       (String c5 ("://" +:+ rest)))))).

(** A string that spells a scheme out: a letter, then letters, digits,
    [+], [-] or [.], then a colon. *)
Definition isSchemeChar (c : ascii) : bool :=
  let n := nat_of_ascii c in
  ((65 <=? n)%nat && (n <=? 90)%nat) || ((97 <=? n)%nat && (n <=? 122)%nat)
  || ((48 <=? n)%nat && (n <=? 57)%nat)
  || Ascii.eqb c "+" || Ascii.eqb c "-" || Ascii.eqb c ".".

Fixpoint schemeEnds (s : string) : bool :=
  match s with
  | EmptyString => false
  | String c rest =>
      if Ascii.eqb c ":" then true else isSchemeChar c && schemeEnds rest
  end.

Definition namesScheme (s : string) : bool :=
  match s with
  | EmptyString => false
  | String c rest =>
      let n := nat_of_ascii c in
      (((65 <=? n)%nat && (n <=? 90)%nat) || ((97 <=? n)%nat && (n <=? 122)%nat))
      && schemeEnds rest
  end.

(** The validator as the specification words it: only a string that
    names no scheme is prefixed; a string with a scheme is parsed as it
    is, and a scheme other than http and https gives "absent". *)
Definition validateAsSpecified `{Platform} (url : string) : Validated.t :=
  if negb (Js.truthy_str url) then Validated.mk None false
  else
    match new_URL (if namesScheme url then url else "https://" +:+ url) with
    | Some parsed =>
        if String.eqb (URL.protocol parsed) "http:"
           || String.eqb (URL.protocol parsed) "https:"
        then Validated.mk (Some (URL.href parsed)) false
        else Validated.mk None false
    | None => Validated.mk None true
    end.

(** What the runtime's parser answers on an ftp link and on the same
    link behind https://: for the latter the host is "ftp" with an empty
    port and the rest is path.  Every other string is taken not to parse. *)
Definition ftpSamplesParse (s : string) : option URL.t :=
  if String.eqb s "ftp://example.com/a"
  then Some (URL.mk "ftp:" "example.com" "/a" [] "ftp://example.com/a")
  else if String.eqb s "https://ftp://example.com/a"
  then Some (URL.mk "https:" "ftp" "//example.com/a" [] "https://ftp//example.com/a")
  else None.

Definition ftpSamples : Platform :=
  {| new_URL := ftpSamplesParse; searchParams_toString := exampleSerialize |}.

(** A string with no ["://"] in it names no scheme explicitly. *)
Definition lacksExplicitScheme (url : string) : Prop :=
  ¬ ∃ scheme rest, url = scheme +:+ "://" +:+ rest.

(** * Properties *)

(** ** JavaScript primitives *)

Lemma truthy_str_true (s : string) : Js.truthy_str s = true ↔ s ≠ "".
Proof. destruct s; simpl; split; try done. Qed.

Lemma truthy_str_false (s : string) : Js.truthy_str s = false ↔ s = "".
Proof. destruct s; simpl; split; try done. Qed.

Lemma or_null_str_Some (o : option string) (u : string) :
  Js.or_null_str o = Some u ↔ o = Some u ∧ u ≠ "".
Proof.
  destruct o as [[|c s]|]; simpl.
  - split; [discriminate|]. intros [[= <-] Hne]. done.
  - split; [intros [= <-]; done|]. by intros [H _].
  - split; [discriminate|]. by intros [H _].
Qed.

Lemma or_null_str_None (o : option string) :
  Js.or_null_str o = None ↔ Js.truthy_ostr o = false.
Proof. destruct o as [[|c s]|]; simpl; split; done. Qed.

Lemma or_null_num_Some (o : option Z) (n : Z) :
  Js.or_null_num o = Some n ↔ o = Some n ∧ n ≠ 0.
Proof.
  destruct o as [k|]; simpl; [|split; [done | by intros [? _]]].
  unfold Js.truthy_num.
  destruct (Z.eqb_spec k 0) as [->|Hk]; simpl.
  - split; [discriminate|]. intros [[= <-] Hne]. done.
  - split; [intros [= <-]; done|]. by intros [H _].
Qed.

Lemma lower_char_colon (c : ascii) : Js.lower_char c = ":"%char → c = ":"%char.
Proof.
  destruct c as [[] [] [] [] [] [] [] []]; vm_compute; congruence.
Qed.

Lemma lower_char_slash (c : ascii) : Js.lower_char c = "/"%char → c = "/"%char.
Proof.
  destruct c as [[] [] [] [] [] [] [] []]; vm_compute; congruence.
Qed.

(** ** Entity extractor *)

Lemma yields_functional text entity u u' :
  yields text entity u → yields text entity u' → u = u'.
Proof.
  intros [_ [[Ht ->]|[Ht Hu]]] [_ [[Ht' ->]|[Ht' Hu']]]; congruence.
Qed.

(** One turn of the loop either returns what the annotation yields or
    moves on to the rest of the list. *)
Lemma extractLoop_step text entity :
  (∃ u, yields text entity u ∧ ∀ rest, extractLoop text (entity :: rest) = Some u)
  ∨ ((∀ u, ¬ yields text entity u)
     ∧ ∀ rest, extractLoop text (entity :: rest) = extractLoop text rest).
Proof.
  unfold yields. simpl.
  destruct (String.eqb_spec (Entity.type entity) "url") as [Hu|Hu].
  - destruct (Js.substring text _ _) as [|c s] eqn:Hs; simpl.
    + right. rewrite Hu. simpl. split; [|done].
      intros u [Hne [[_ ->]|[Hty _]]]; [done | discriminate].
    + left. eexists. split; [|done]. split; [done|]. by left.
  - destruct (String.eqb_spec (Entity.type entity) "text_link") as [Hl|Hl]; simpl.
    + destruct (Entity.url entity) as [[|c s]|] eqn:Hurl; simpl.
      * right. split; [|done]. intros u [Hne [[Hty _]|[_ Heq]]]; congruence.
      * left. eexists. split; [|done]. split; [done|]. by right.
      * right. split; [|done]. intros u [Hne [[Hty _]|[_ Heq]]]; congruence.
    + right. split; [|done]. intros u [_ [[Hty _]|[Hty _]]]; congruence.
Qed.

Lemma extractLoop_first text entities u :
  extractLoop text entities = Some u ↔
  ∃ (i : nat) entity,
    entities !! i = Some entity ∧ yields text entity u ∧
    ∀ (j : nat) earlier u',
      (j < i)%nat → entities !! j = Some earlier → ¬ yields text earlier u'.
Proof.
  induction entities as [|e rest IH].
  - simpl. split; [done|]. intros (i & e & Hi & _). by rewrite lookup_nil in Hi.
  - destruct (extractLoop_step text e) as [(v & Hv & Heq)|[Hno Heq]]; rewrite Heq.
    + split.
      * intros [= <-]. exists 0%nat, e. split; [done|]. split; [done|]. lia.
      * intros (i & e' & Hi & Hy & Hfirst). destruct i as [|i].
        -- simpl in Hi. injection Hi as <-. f_equal. by eapply yields_functional.
        -- exfalso. eapply (Hfirst 0%nat e v); [lia|done|done].
    + rewrite IH. split.
      * intros (i & e' & Hi & Hy & Hfirst). exists (S i), e'.
        split; [done|]. split; [done|].
        intros [|j] e'' u' Hlt Hj.
        -- simpl in Hj. injection Hj as <-. apply Hno.
        -- simpl in Hj. eapply Hfirst; [|done]. lia.
      * intros (i & e' & Hi & Hy & Hfirst). destruct i as [|i].
        -- simpl in Hi. injection Hi as <-. by apply Hno in Hy.
        -- exists i, e'. split; [done|]. split; [done|].
           intros j e'' u' Hlt Hj. apply (Hfirst (S j) e'' u'); [lia|done].
Qed.

Lemma extractLoop_no_links text entities :
  (∀ entity, entity ∈ entities →
     Entity.type entity ≠ "url" ∧ Entity.type entity ≠ "text_link") →
  extractLoop text entities = None.
Proof.
  intros Hno. destruct (extractLoop text entities) as [u|] eqn:E; [|done].
  apply extractLoop_first in E as (i & e & Hi & [_ Hy] & _).
  apply list_elem_of_lookup_2 in Hi. apply Hno in Hi as [? ?].
  destruct Hy as [[? _]|[? _]]; done.
Qed.

(** C3, as the code has it: the extractor returns what the first
    annotation that offers anything yields, in list order, whichever of
    the two kinds it is: a URL span with a non-empty substring or a text
    link with a non-empty attached URL.  It returns a URL exactly when
    such an annotation exists. *)
Theorem extractFromEntities_first_yield (message : Message.t) (u : string) :
  extractFromEntities message = Some u ↔
  ∃ (i : nat) entity,
    entitiesOf message !! i = Some entity ∧
    yields (getText message) entity u ∧
    ∀ (j : nat) earlier u',
      (j < i)%nat → entitiesOf message !! j = Some earlier →
      ¬ yields (getText message) earlier u'.
Proof. apply extractLoop_first. Qed.

(** C3, as the specification states it, fails: a text link placed before
    a URL span wins, although the span yields a non-empty substring. *)
Lemma extractFromEntities_not_spans_first :
  extractUrlSpansFirst msgLinkBeforeSpan = Some "https://example.com/a"
  ∧ extractFromEntities msgLinkBeforeSpan = Some "https://other.example/b"
  ∧ extractFromEntities msgLinkBeforeSpan ≠ extractUrlSpansFirst msgLinkBeforeSpan.
Proof. vm_compute. split; [done|]. split; [done|]. congruence. Qed.

(** C4: a message that has no URL-span and no text-link annotation yields
    no URL whatever its text and caption are, its snapshot does not
    depend on them, and a snapshot of any message holds, besides chat,
    sender, time and message id, only the extractor's result. *)
Theorem snapshot_privacy_boundary (now : Z) (message : Message.t)
    (tx cp : option string) :
  noLinkAnnotations message →
  extractFromEntities message = None
  ∧ extractFromEntities (Message.with_text message tx cp) = None
  ∧ snapshotUserMessage now (Message.with_text message tx cp)
    = snapshotUserMessage now message
  ∧ ∀ m snapshot, snapshotUserMessage now m = Some snapshot →
      ∃ sender, Message.from m = Some sender ∧
        snapshot =
          Snapshot.mk (Chat.id (Message.chat m)) (User.id sender)
            (if Js.truthy_num (Message.date m) then Message.date m * 1000 else now)
            (Message.message_id m) (extractFromEntities m).
Proof.
  intros Hno.
  assert (H1 : extractFromEntities message = None)
    by (by apply extractLoop_no_links).
  assert (H2 : extractFromEntities (Message.with_text message tx cp) = None)
    by (by apply extractLoop_no_links).
  split; [done|]. split; [done|]. split.
  - unfold snapshotUserMessage. rewrite H1, H2. done.
  - intros m s. unfold snapshotUserMessage.
    destruct (Message.from m) as [sender|]; [|done].
    destruct (User.is_bot sender); [done|].
    intros [= <-]. by exists sender.
Qed.

Lemma snapshot_privacy_boundary_witness :
  snapshotUserMessage 5
    (Message.with_text (msgPlain 2 groupChat (Some alice)) (Some "my secret") None)
  = snapshotUserMessage 5 (msgPlain 2 groupChat (Some alice)).
Proof.
  apply (snapshot_privacy_boundary 5 (msgPlain 2 groupChat (Some alice))
           (Some "my secret") None).
  intros entity Hentity. simpl in Hentity. by apply elem_of_nil in Hentity.
Defined.

(** ** Validator *)

Lemma prefix_cons a s1 s2 :
  String.prefix (String a s1) s2 = true →
  ∃ b s2', s2 = String b s2' ∧ a = b ∧ String.prefix s1 s2' = true.
Proof.
  destruct s2 as [|b s2']; simpl; [discriminate|].
  destruct (ascii_dec a b) as [->|]; [|discriminate].
  intros Hp. by exists b, s2'.
Qed.

Lemma toLowerCase_cons s b rest :
  Js.toLowerCase s = String b rest →
  ∃ c s', s = String c s' ∧ Js.lower_char c = b ∧ Js.toLowerCase s' = rest.
Proof.
  destruct s as [|c s']; simpl; [discriminate|].
  intros [= <- <-]. by exists c, s'.
Qed.

(** A string the code leaves unprefixed spells a scheme out. *)
Lemma hasHttpPrefix_scheme (url : string) :
  hasHttpPrefix url = true → ∃ scheme rest, url = scheme +:+ "://" +:+ rest.
Proof.
  unfold hasHttpPrefix. intros [H|H]%orb_true_iff.
  - apply prefix_cons in H as (b1 & l1 & E1 & _ & H).
    apply toLowerCase_cons in E1 as (c1 & s1 & -> & _ & E1). subst l1.
    apply prefix_cons in H as (b2 & l2 & E2 & _ & H).
    apply toLowerCase_cons in E2 as (c2 & s2 & -> & _ & E2). subst l2.
    apply prefix_cons in H as (b3 & l3 & E3 & _ & H).
    apply toLowerCase_cons in E3 as (c3 & s3 & -> & _ & E3). subst l3.
    apply prefix_cons in H as (b4 & l4 & E4 & _ & H).
    apply toLowerCase_cons in E4 as (c4 & s4 & -> & _ & E4). subst l4.
    apply prefix_cons in H as (b5 & l5 & E5 & <- & H).
    apply toLowerCase_cons in E5 as (c5 & s5 & -> & ->%lower_char_colon & E5). subst l5.
    apply prefix_cons in H as (b6 & l6 & E6 & <- & H).
    apply toLowerCase_cons in E6 as (c6 & s6 & -> & ->%lower_char_slash & E6). subst l6.
    apply prefix_cons in H as (b7 & l7 & E7 & <- & H).
    apply toLowerCase_cons in E7 as (c7 & s7 & -> & ->%lower_char_slash & E7).
    by exists (String c1 (String c2 (String c3 (String c4 "")))), s7.
  - apply prefix_cons in H as (b1 & l1 & E1 & _ & H).
    apply toLowerCase_cons in E1 as (c1 & s1 & -> & _ & E1). subst l1.
    apply prefix_cons in H as (b2 & l2 & E2 & _ & H).
    apply toLowerCase_cons in E2 as (c2 & s2 & -> & _ & E2). subst l2.
    apply prefix_cons in H as (b3 & l3 & E3 & _ & H).
    apply toLowerCase_cons in E3 as (c3 & s3 & -> & _ & E3). subst l3.
    apply prefix_cons in H as (b4 & l4 & E4 & _ & H).
    apply toLowerCase_cons in E4 as (c4 & s4 & -> & _ & E4). subst l4.
    apply prefix_cons in H as (b0 & l0 & E0 & _ & H).
    apply toLowerCase_cons in E0 as (c0 & s0 & -> & _ & E0). subst l0.
    apply prefix_cons in H as (b5 & l5 & E5 & <- & H).
    apply toLowerCase_cons in E5 as (c5 & s5 & -> & ->%lower_char_colon & E5). subst l5.
    apply prefix_cons in H as (b6 & l6 & E6 & <- & H).
    apply toLowerCase_cons in E6 as (c6 & s6 & -> & ->%lower_char_slash & E6). subst l6.
    apply prefix_cons in H as (b7 & l7 & E7 & <- & H).
    apply toLowerCase_cons in E7 as (c7 & s7 & -> & ->%lower_char_slash & E7).
    by exists (String c1 (String c2 (String c3 (String c4 (String c0 ""))))), s7.
Qed.

Lemma normalizeCandidate_lacking_scheme (url : string) :
  lacksExplicitScheme url → normalizeCandidate url = "https://" +:+ url.
Proof.
  intros Hno. unfold normalizeCandidate.
  destruct (hasHttpPrefix url) eqn:E; [|done].
  destruct Hno. by apply hasHttpPrefix_scheme.
Qed.

Ltac solve_letter :=
  let c := fresh "c" in
  intros c; unfold letterIs;
  destruct c as [[] [] [] [] [] [] [] []]; vm_compute;
  (split; [intros ?; first [discriminate | by left | by right]
          | intros [?|?]; first [discriminate | reflexivity]]).

Lemma lower_char_h : ∀ c, Js.lower_char c = "h"%char ↔ letterIs "h" "H" c.
Proof. solve_letter. Qed.

Lemma lower_char_t : ∀ c, Js.lower_char c = "t"%char ↔ letterIs "t" "T" c.
Proof. solve_letter. Qed.

Lemma lower_char_p : ∀ c, Js.lower_char c = "p"%char ↔ letterIs "p" "P" c.
Proof. solve_letter. Qed.

Lemma lower_char_s : ∀ c, Js.lower_char c = "s"%char ↔ letterIs "s" "S" c.
Proof. solve_letter. Qed.

Lemma prefix_nil_true (s : string) : String.prefix "" s = true.
Proof. by destruct s. Qed.

Lemma prefix_cons_true (a : ascii) (s1 s2 : string) :
  String.prefix s1 s2 = true → String.prefix (String a s1) (String a s2) = true.
Proof. intros Hp. simpl. by destruct (ascii_dec a a). Qed.

(** The code's prefix test is the test for a leading http:// or
    https:// in any letter case. *)
Lemma hasHttpPrefix_iff (url : string) :
  hasHttpPrefix url = true ↔ startsWithHttp url.
Proof.
  unfold hasHttpPrefix, startsWithHttp. split.
  - intros [H|H]%orb_true_iff.
    + apply prefix_cons in H as (b1 & l1 & E1 & <- & H).
      apply toLowerCase_cons in E1 as (c1 & s1 & -> & H1%lower_char_h & E1). subst l1.
      apply prefix_cons in H as (b2 & l2 & E2 & <- & H).
      apply toLowerCase_cons in E2 as (c2 & s2 & -> & H2%lower_char_t & E2). subst l2.
      apply prefix_cons in H as (b3 & l3 & E3 & <- & H).
      apply toLowerCase_cons in E3 as (c3 & s3 & -> & H3%lower_char_t & E3). subst l3.
      apply prefix_cons in H as (b4 & l4 & E4 & <- & H).
      apply toLowerCase_cons in E4 as (c4 & s4 & -> & H4%lower_char_p & E4). subst l4.
      apply prefix_cons in H as (b5 & l5 & E5 & <- & H).
      apply toLowerCase_cons in E5 as (c5 & s5 & -> & ->%lower_char_colon & E5). subst l5.
      apply prefix_cons in H as (b6 & l6 & E6 & <- & H).
      apply toLowerCase_cons in E6 as (c6 & s6 & -> & ->%lower_char_slash & E6). subst l6.
      apply prefix_cons in H as (b7 & l7 & E7 & <- & H).
      apply toLowerCase_cons in E7 as (c7 & s7 & -> & ->%lower_char_slash & E7).
      exists c1, c2, c3, c4, s7. do 4 (split; [done|]). by left.
    + apply prefix_cons in H as (b1 & l1 & E1 & <- & H).
      apply toLowerCase_cons in E1 as (c1 & s1 & -> & H1%lower_char_h & E1). subst l1.
      apply prefix_cons in H as (b2 & l2 & E2 & <- & H).
      apply toLowerCase_cons in E2 as (c2 & s2 & -> & H2%lower_char_t & E2). subst l2.
      apply prefix_cons in H as (b3 & l3 & E3 & <- & H).
      apply toLowerCase_cons in E3 as (c3 & s3 & -> & H3%lower_char_t & E3). subst l3.
      apply prefix_cons in H as (b4 & l4 & E4 & <- & H).
      apply toLowerCase_cons in E4 as (c4 & s4 & -> & H4%lower_char_p & E4). subst l4.
      apply prefix_cons in H as (b0 & l0 & E0 & <- & H).
      apply toLowerCase_cons in E0 as (c0 & s0 & -> & H0%lower_char_s & E0). subst l0.
      apply prefix_cons in H as (b5 & l5 & E5 & <- & H).
      apply toLowerCase_cons in E5 as (c5 & s5 & -> & ->%lower_char_colon & E5). subst l5.
      apply prefix_cons in H as (b6 & l6 & E6 & <- & H).
      apply toLowerCase_cons in E6 as (c6 & s6 & -> & ->%lower_char_slash & E6). subst l6.
      apply prefix_cons in H as (b7 & l7 & E7 & <- & H).
      apply toLowerCase_cons in E7 as (c7 & s7 & -> & ->%lower_char_slash & E7).
      exists c1, c2, c3, c4, s7. do 4 (split; [done|]). right. by exists c0.
  - intros (c1 & c2 & c3 & c4 & rest & H1%lower_char_h & H2%lower_char_t
            & H3%lower_char_t & H4%lower_char_p & [-> | (c5 & H5%lower_char_s & ->)]);
      apply orb_true_iff; [left|right]; cbn [Js.toLowerCase String.append];
      rewrite H1, H2, H3, H4, ?H5;
      repeat apply prefix_cons_true; apply prefix_nil_true.
Qed.

(** Whatever the candidate, the string handed to the parser begins with
    http:// or https://. *)
Lemma normalizeCandidate_starts_with_http (url : string) :
  startsWithHttp (normalizeCandidate url).
Proof.
  unfold normalizeCandidate. destruct (hasHttpPrefix url) eqn:E.
  - by apply hasHttpPrefix_iff.
  - exists "h"%char, "t"%char, "t"%char, "p"%char, url.
    do 4 (split; [by left|]). right. exists "s"%char. split; [by left|done].
Qed.

(** The validator's cases, in terms of the candidate and of what the
    parser reports: a candidate is prefixed with https:// exactly when it
    does not begin with http:// or https:// (also when it names another
    scheme); a string the parser rejects gives "invalid"; a parsed
    protocol http: or https: gives the serialisation; a parsed protocol
    that is neither, in any letter case, gives "absent". *)
Lemma validateCandidate_behaviour `{Platform} (url : string) :
  url ≠ "" →
  (startsWithHttp url → normalizeCandidate url = url)
  ∧ (¬ startsWithHttp url → normalizeCandidate url = "https://" +:+ url)
  ∧ (new_URL (normalizeCandidate url) = None →
     validateCandidate url = Validated.mk None true)
  ∧ (∀ parsed, new_URL (normalizeCandidate url) = Some parsed →
       URL.protocol parsed = "http:" ∨ URL.protocol parsed = "https:" →
       validateCandidate url = Validated.mk (Some (URL.href parsed)) false)
  ∧ (∀ parsed, new_URL (normalizeCandidate url) = Some parsed →
       Js.toLowerCase (URL.protocol parsed) ≠ "http:" →
       Js.toLowerCase (URL.protocol parsed) ≠ "https:" →
       validateCandidate url = Validated.mk None false).
Proof.
  intros Hne. apply truthy_str_true in Hne.
  split.
  { intros Hhttp%hasHttpPrefix_iff. unfold normalizeCandidate. by rewrite Hhttp. }
  split.
  { intros Hno. unfold normalizeCandidate.
    destruct (hasHttpPrefix url) eqn:E; [|done].
    by apply hasHttpPrefix_iff in E. }
  unfold validateCandidate, isWebProtocol. rewrite Hne. cbn [negb].
  split; [by intros ->|].
  split.
  - by intros parsed -> [-> | ->].
  - intros parsed -> H1 H2.
    apply String.eqb_neq in H1, H2. by rewrite H1, H2.
Qed.

(** With a parser that reports the scheme its input begins with, the
    "absent" result is never reached: a non-empty candidate is either
    invalid or accepted as an http(s) URL. *)
Lemma validateCandidate_never_absent `{Platform} (url : string) :
  url ≠ "" →
  (∀ s parsed, startsWithHttp s → new_URL s = Some parsed →
     URL.protocol parsed = "http:" ∨ URL.protocol parsed = "https:") →
  validateCandidate url = Validated.mk None true
  ∨ ∃ parsed, new_URL (normalizeCandidate url) = Some parsed
              ∧ validateCandidate url = Validated.mk (Some (URL.href parsed)) false.
Proof.
  intros Hne Hparser.
  destruct (validateCandidate_behaviour url Hne) as (_ & _ & Hinvalid & Hweb & _).
  destruct (new_URL (normalizeCandidate url)) as [parsed|] eqn:E.
  - right. exists parsed. split; [done|]. apply Hweb; [done|].
    eapply Hparser; [apply normalizeCandidate_starts_with_http|done].
  - left. by apply Hinvalid.
Qed.

(** C6: the code at a candidate that names a scheme other than http and
    https.  The specification has "ftp://example.com/a" parsed as it is
    and, its scheme being ftp, ignored (absent).  The code prefixes every
    candidate that does not begin with http:// or https://, this one
    included, so the parser is handed "https://ftp://example.com/a",
    which it reads as an https URL with host "ftp"; the check that is
    commented "Only allow http/https" then passes, and the result is a
    usable URL instead of "absent": the same result as for the candidate
    that spells the https:// out. *)
Theorem validateCandidate_accepts_foreign_scheme :
  namesScheme "ftp://example.com/a" = true
  ∧ ¬ startsWithHttp "ftp://example.com/a"
  ∧ normalizeCandidate "ftp://example.com/a" = "https://ftp://example.com/a"
  ∧ URL.protocol <$> @new_URL ftpSamples "ftp://example.com/a" = Some "ftp:"
  ∧ @validateAsSpecified ftpSamples "ftp://example.com/a" = Validated.mk None false
  ∧ @validateCandidate ftpSamples "ftp://example.com/a"
    = Validated.mk (Some "https://ftp//example.com/a") false
  ∧ @validateCandidate ftpSamples "https://ftp://example.com/a"
    = @validateCandidate ftpSamples "ftp://example.com/a".
Proof.
  split; [reflexivity|]. split.
  { intros Hhttp%hasHttpPrefix_iff. discriminate Hhttp. }
  repeat split.
Qed.

(** ** Recency window *)

(** C5, as the code has it: a remembered message of the same sender that
    has not been used is reusable exactly while its age is at most the
    recency window, the boundary instant included; it is expired only
    when the age exceeds 30000 ms. *)
Theorem recentPreviousMessage_window (now : Z) (st : state) (chatId : Z)
    (fromId : option Z) (prev : Snapshot.t) :
  lastUserMessages st !! chatId = Some prev →
  Js.or_null_num fromId = None ∨ fromId = Some (Snapshot.fromId prev) →
  isMessageUsed st chatId (Snapshot.message_id prev) = false →
  (now - Snapshot.date prev ≤ PREVIOUS_MESSAGE_WINDOW_MS →
   recentPreviousMessage now st chatId fromId = Some prev)
  ∧ (PREVIOUS_MESSAGE_WINDOW_MS < now - Snapshot.date prev →
     recentPreviousMessage now st chatId fromId = None).
Proof.
  intros Hprev Hfrom Hused. unfold recentPreviousMessage.
  rewrite Hprev, Hused.
  assert (Hs : match Js.or_null_num fromId with
               | Some f => negb (Snapshot.fromId prev =? f)
               | None => false
               end = false).
  { destruct Hfrom as [->| ->]; [done|]. simpl.
    destruct (Js.truthy_num _); [|done]. by rewrite Z.eqb_refl. }
  rewrite Hs. split; intros Hage.
  - by apply Z.ltb_ge in Hage as ->.
  - by apply Z.ltb_lt in Hage as ->.
Qed.

Lemma recentPreviousMessage_window_witness :
  recentPreviousMessage 1030000 stRemembered (-100) (Some 7) = Some snapA.
Proof.
  apply (recentPreviousMessage_window 1030000 stRemembered (-100) (Some 7) snapA);
    [reflexivity | by right | reflexivity | vm_compute; discriminate].
Defined.

(** C5, as the specification states it, fails: a remembered message whose
    age is exactly the recency window is still returned. *)
Lemma recentPreviousMessage_boundary_inclusive :
  1030000 - Snapshot.date snapA = PREVIOUS_MESSAGE_WINDOW_MS
  ∧ lastUserMessages stRemembered !! (-100) = Some snapA
  ∧ recentPreviousMessage 1030000 stRemembered (-100) (Some 7) = Some snapA.
Proof. split; [reflexivity|]. split; reflexivity. Qed.

(** ** Anti-replay store *)

Lemma storeOk_empty : storeOk ∅.
Proof. intros c b Hc. by rewrite lookup_empty in Hc. Qed.

Lemma bucketOk_empty : bucketOk Bucket.empty.
Proof.
  split; [constructor|]. split; [|simpl; lia].
  intros id. simpl. split; [set_solver | by intros ?%elem_of_nil].
Qed.

(** The [for] loop appends the new ids to the queue, in the order it
    meets them, and keeps queue and set in step. *)
Lemma markLoop_spec (ids : list Z) (bucket : Bucket.t) :
  NoDup (Bucket.queue bucket) →
  (∀ id, id ∈ Bucket.set bucket ↔ id ∈ Bucket.queue bucket) →
  ∃ added,
    Bucket.queue (markLoop ids bucket) = Bucket.queue bucket ++ added
    ∧ NoDup (Bucket.queue (markLoop ids bucket))
    ∧ (∀ id, id ∈ Bucket.set (markLoop ids bucket)
             ↔ id ∈ Bucket.queue (markLoop ids bucket))
    ∧ (∀ id, id ∈ added ↔ id ∈ ids ∧ id ≠ 0 ∧ id ∉ Bucket.set bucket).
Proof.
  revert bucket. induction ids as [|id rest IH]; intros bucket Hnd Hsame.
  - exists []. simpl. rewrite app_nil_r. split; [done|]. split; [done|].
    split; [done|]. intros x. split; [by intros ?%elem_of_nil|].
    by intros [?%elem_of_nil _].
  - simpl. unfold Js.truthy_num. destruct (Z.eqb_spec id 0) as [->|Hid]; simpl.
    + destruct (IH bucket Hnd Hsame) as (added & Hq & Hnd' & Hsame' & Hadded).
      exists added. split; [done|]. split; [done|]. split; [done|].
      intros x. rewrite Hadded. set_solver.
    + case_bool_decide as Hin.
      * destruct (IH (Bucket.mk ({[id]} ∪ Bucket.set bucket) (Bucket.queue bucket)))
          as (added & Hq & Hnd' & Hsame' & Hadded); simpl; [done| |].
        { intros x. rewrite <- Hsame. set_solver. }
        simpl in *. exists added. split; [done|]. split; [done|]. split; [done|].
        intros x. rewrite Hadded. set_solver.
      * destruct (IH (Bucket.mk ({[id]} ∪ Bucket.set bucket)
                        (Bucket.queue bucket ++ [id])))
          as (added & Hq & Hnd' & Hsame' & Hadded); simpl.
        { apply NoDup_app. split; [done|]. split; [|apply NoDup_singleton].
          intros x Hx ->%list_elem_of_singleton. apply Hin. by apply Hsame. }
        { intros x. rewrite elem_of_app, <- Hsame. set_solver. }
        simpl in *. exists (id :: added).
        split; [by rewrite Hq, <- app_assoc|]. split; [done|]. split; [done|].
        intros x. rewrite elem_of_cons, Hadded. clear -Hin Hid.
        destruct (decide (x = id)) as [->|Hne]; set_solver.
Qed.

(** The [while] loop drops ids from the front of the queue until twenty
    are left, and takes the same ids out of the set. *)
Lemma evictLoop_spec (set : gset Z) (queue : list Z) :
  NoDup queue →
  (∀ id, id ∈ set ↔ id ∈ queue) →
  Bucket.queue (evictLoop set queue) = drop (List.length queue - 20) queue
  ∧ bucketOk (evictLoop set queue).
Proof.
  revert set. induction queue as [|old rest IH]; intros set Hnd Hsame.
  - simpl. split; [done|]. split; [done|]. split; [done|]. simpl. lia.
  - cbn [evictLoop].
    destruct (20 <? List.length (old :: rest))%nat eqn:E.
    + apply Nat.ltb_lt in E.
      apply NoDup_cons in Hnd as [Hold Hnd].
      destruct (IH (set ∖ {[old]}) Hnd) as [Hq Hok].
      { intros x. rewrite elem_of_difference, Hsame, elem_of_cons.
        rewrite not_elem_of_singleton. split; [by intros [[?|?] ?]|].
        intros Hx. split; [by right|]. by intros ->. }
      split; [|done]. rewrite Hq. simpl in E. simpl List.length.
      replace (S (List.length rest) - 20)%nat with (S (List.length rest - 20)) by lia.
      done.
    + apply Nat.ltb_ge in E. split.
      * replace (List.length (old :: rest) - 20)%nat with 0%nat by lia. done.
      * split; [done|]. split; [done|]. done.
Qed.

Lemma markMessagesUsed_lookup (chatId : Z) (ids : list Z) (used : gmap Z Bucket.t) :
  markMessagesUsed chatId ids used !! chatId =
    Some (let marked := markLoop ids (bucketBefore chatId used) in
          evictLoop (Bucket.set marked) (Bucket.queue marked))
  ∧ ∀ other, other ≠ chatId →
      markMessagesUsed chatId ids used !! other = used !! other.
Proof.
  unfold markMessagesUsed, getUsedBucket, bucketBefore.
  destruct (used !! chatId) as [b|] eqn:E; simpl.
  - split; [by rewrite lookup_insert_eq|].
    intros other Hne. by rewrite lookup_insert_ne.
  - split; [by rewrite lookup_insert_eq|].
    intros other Hne. by rewrite !lookup_insert_ne.
Qed.

Lemma bucketBefore_ok (chatId : Z) (used : gmap Z Bucket.t) :
  storeOk used → bucketOk (bucketBefore chatId used).
Proof.
  intros Hok. unfold bucketBefore.
  destruct (used !! chatId) as [b|] eqn:E; simpl; [by eapply Hok|].
  apply bucketOk_empty.
Qed.

Lemma markMessagesUsed_storeOk (chatId : Z) (ids : list Z) (used : gmap Z Bucket.t) :
  storeOk used → storeOk (markMessagesUsed chatId ids used).
Proof.
  intros Hok c b Hc.
  destruct (markMessagesUsed_lookup chatId ids used) as [Hhere Hother].
  destruct (decide (c = chatId)) as [->|Hne].
  - rewrite Hhere in Hc. injection Hc as <-.
    destruct (bucketBefore_ok chatId used Hok) as (Hnd & Hsame & _).
    destruct (markLoop_spec ids _ Hnd Hsame) as (added & _ & Hnd' & Hsame' & _).
    by apply evictLoop_spec.
  - rewrite Hother in Hc by done. by eapply Hok.
Qed.

(** C9: when every bucket holds the same ids in queue and set, without
    duplicates and at most twenty of them (as the empty store does),
    [markMessagesUsed] leaves every bucket so; and the chat's new queue
    is what remains of the old queue followed by the newly marked ids
    after the oldest entries beyond twenty were dropped from the front,
    the dropped ids leaving the set as well. *)
Theorem markMessagesUsed_bounded_fifo (chatId : Z) (ids : list Z)
    (used : gmap Z Bucket.t) :
  storeOk used →
  storeOk (markMessagesUsed chatId ids used)
  ∧ ∃ after added evicted,
      markMessagesUsed chatId ids used !! chatId = Some after
      ∧ (∀ id, id ∈ added ↔
               id ∈ ids ∧ id ≠ 0 ∧ id ∉ Bucket.set (bucketBefore chatId used))
      ∧ Bucket.queue (bucketBefore chatId used) ++ added
        = evicted ++ Bucket.queue after
      ∧ List.length evicted
        = (List.length (Bucket.queue (bucketBefore chatId used) ++ added) - 20)%nat
      ∧ (∀ id, id ∈ evicted → id ∉ Bucket.set after)
      ∧ (List.length (Bucket.queue after) ≤ 20)%nat
      ∧ NoDup (Bucket.queue after)
      ∧ (∀ id, id ∈ Bucket.set after ↔ id ∈ Bucket.queue after).
Proof.
  intros Hok. split; [by apply markMessagesUsed_storeOk|].
  destruct (markMessagesUsed_lookup chatId ids used) as [Hhere _].
  destruct (bucketBefore_ok chatId used Hok) as (Hnd & Hsame & _).
  destruct (markLoop_spec ids _ Hnd Hsame) as (added & Hq & Hnd' & Hsame' & Hadded).
  destruct (evictLoop_spec _ _ Hnd' Hsame') as (Hdrop & Hnd'' & Hsame'' & Hlen).
  set (marked := markLoop ids (bucketBefore chatId used)) in *.
  set (after := evictLoop (Bucket.set marked) (Bucket.queue marked)) in *.
  exists after, added, (take (List.length (Bucket.queue marked) - 20) (Bucket.queue marked)).
  split; [done|]. split; [done|].
  split; [by rewrite Hdrop, <- Hq, take_drop|].
  split.
  { rewrite length_take, <- Hq. lia. }
  split; [|done].
  intros id Hev Hin. apply Hsame'' in Hin. rewrite Hdrop in Hin.
  rewrite <- (take_drop (List.length (Bucket.queue marked) - 20) (Bucket.queue marked))
    in Hnd'.
  apply NoDup_app in Hnd' as (_ & Hdisj & _). by eapply Hdisj.
Qed.

Lemma markMessagesUsed_bounded_fifo_witness :
  storeOk (markMessagesUsed (-100) [1; 2] ∅).
Proof.
  apply (markMessagesUsed_bounded_fifo (-100) [1; 2] ∅).
  intros c b Hc. rewrite lookup_empty in Hc. discriminate.
Defined.

(** ** YouTube canonicaliser *)

Lemma canonicalizeUrl_no_id `{Platform} (urlString : string) :
  Js.truthy_ostr (youtubeIdFromUrl urlString) = false →
  canonicalizeUrl urlString = urlString.
Proof.
  intros Hid. unfold canonicalizeUrl.
  by apply or_null_str_None in Hid as ->.
Qed.

(** C10: a string that does not parse as a URL, or whose host is neither
    youtu.be nor contains youtube.com, or whose parsed URL carries no
    video id in its v parameter or path, is returned unchanged. *)
Theorem canonicalizeUrl_only_youtube `{Platform} (urlString : string) :
  (new_URL urlString = None
   ∨ (∃ url, new_URL urlString = Some url
             ∧ URL.hostname url ≠ "youtu.be"
             ∧ Js.includes "youtube.com" (URL.hostname url) = false)
   ∨ (∃ url, new_URL urlString = Some url ∧ noVideoId url)) →
  canonicalizeUrl urlString = urlString.
Proof.
  intros Hcase. apply canonicalizeUrl_no_id. unfold youtubeIdFromUrl.
  destruct Hcase as [-> | [(url & -> & Hhost & Hinc) | (url & -> & Hv & Hbe & Hpath)]].
  - done.
  - destruct (String.eqb_spec (URL.hostname url) "youtu.be"); [done|].
    by rewrite Hinc.
  - destruct (String.eqb_spec (URL.hostname url) "youtu.be") as [Heq|Hne].
    + by rewrite (Hbe Heq).
    + destruct (Js.includes _ _); [|done]. rewrite Hv.
      specialize (Hpath Hne). apply Nat.leb_gt in Hpath. by rewrite Hpath.
Qed.

Lemma canonicalizeUrl_only_youtube_witness :
  @canonicalizeUrl examplePlatform "https://example.com/a" = "https://example.com/a".
Proof.
  apply (@canonicalizeUrl_only_youtube examplePlatform).
  right. left.
  exists (URL.mk "https:" "example.com" "/a" [] "https://example.com/a").
  split; [reflexivity|]. split; [discriminate | reflexivity].
Defined.

(** ** Orchestrator: what each step leaves alone *)

Lemma rememberLastUserMessage_frame (now : Z) (st : state) (message : Message.t) :
  promptWindows (rememberLastUserMessage now st message) = promptWindows st
  ∧ usedMessagesByChat (rememberLastUserMessage now st message) = usedMessagesByChat st
  ∧ rooms (rememberLastUserMessage now st message) = rooms st.
Proof.
  unfold rememberLastUserMessage.
  by destruct (snapshotUserMessage now message).
Qed.

Lemma rememberLastUserMessage_slot (now : Z) (st : state) (message : Message.t) :
  lastUserMessages (rememberLastUserMessage now st message) =
    match snapshotUserMessage now message with
    | Some snapshot =>
        <[Chat.id (Message.chat message) := snapshot]> (lastUserMessages st)
    | None => lastUserMessages st
    end.
Proof.
  unfold rememberLastUserMessage, snapshotUserMessage.
  destruct (Message.from message) as [sender|]; [|done].
  by destruct (User.is_bot sender).
Qed.

Lemma shouldHandleMessage_frame (now : Z) (st : state) (ctx : Ctx.t) :
  lastUserMessages (snd (shouldHandleMessage now st ctx)) = lastUserMessages st
  ∧ usedMessagesByChat (snd (shouldHandleMessage now st ctx)) = usedMessagesByChat st
  ∧ rooms (snd (shouldHandleMessage now st ctx)) = rooms st.
Proof.
  unfold shouldHandleMessage, consumePromptWindow.
  destruct (isPrivate ctx); [done|].
  destruct (messageMentionsBot ctx); [done|].
  destruct (isReplyToBot ctx); [done|].
  by destruct (isWithinPromptWindow _ _ _).
Qed.

Lemma ensureRoom_frame (e : env) (st st1 : state) (chatId : Z) (streamkey : string) :
  ensureRoom e st chatId = Some (streamkey, st1) →
  promptWindows st1 = promptWindows st
  ∧ lastUserMessages st1 = lastUserMessages st
  ∧ usedMessagesByChat st1 = usedMessagesByChat st.
Proof.
  unfold ensureRoom.
  destruct (Js.or_null_str _); [by intros [= _ <-]|].
  destruct (createRoom_result e); [by intros [= _ <-]|done].
Qed.

Lemma tryBlock_frame (e : env) (st : state) (ctx : Ctx.t) (source : option Z) :
  promptWindows (fst (tryBlock e st ctx source)) = promptWindows st
  ∧ lastUserMessages (fst (tryBlock e st ctx source)) = lastUserMessages st.
Proof.
  unfold tryBlock.
  destruct (ensureRoom e st _) as [[streamkey st1]|] eqn:E; [|done].
  apply ensureRoom_frame in E as (Hp & Hl & _).
  destruct (addToPlaylist_ok e); simpl; [|done].
  by destruct (reply_ok e _).
Qed.

(** Inside [try], the used ids change only on the path that has
    delivered the success reply. *)
Lemma tryBlock_used (e : env) (st : state) (ctx : Ctx.t) (source : option Z) :
  (snd (tryBlock e st ctx source) = catchBlock e
   ∧ usedMessagesByChat (fst (tryBlock e st ctx source)) = usedMessagesByChat st)
  ∨ (∃ streamkey st1,
       ensureRoom e st (Chat.id (Ctx.chat ctx)) = Some (streamkey, st1)
       ∧ addToPlaylist_ok e = true
       ∧ reply_ok e (Reply.Added (buildRoomLink streamkey)) = true
       ∧ snd (tryBlock e st ctx source) = [Reply.Added (buildRoomLink streamkey)]
       ∧ usedMessagesByChat (fst (tryBlock e st ctx source)) =
           markMessagesUsed (Chat.id (Ctx.chat ctx))
             (idsToMark source (Ctx.message ctx)) (usedMessagesByChat st)).
Proof.
  unfold tryBlock.
  destruct (ensureRoom e st _) as [[streamkey st1]|] eqn:E; [|by left].
  apply ensureRoom_frame in E as (_ & _ & Hu).
  destruct (addToPlaylist_ok e); simpl; [|by left].
  destruct (reply_ok e _) eqn:Hr; simpl; [|by left].
  right. exists streamkey, st1. by rewrite Hu.
Qed.

Lemma finallyBlock_frame (now : Z) (st : state) (ctx : Ctx.t)
    (priorMessage : option Snapshot.t) :
  promptWindows (finallyBlock now st ctx priorMessage) = promptWindows st
  ∧ usedMessagesByChat (finallyBlock now st ctx priorMessage) = usedMessagesByChat st.
Proof.
  unfold finallyBlock.
  destruct (rememberLastUserMessage_frame now
              match priorMessage with
              | Some _ => setLastUserMessages st
                            (delete (Chat.id (Ctx.chat ctx)) (lastUserMessages st))
              | None => st
              end (Ctx.message ctx)) as (-> & -> & _).
  by destruct priorMessage.
Qed.

Lemma finallyBlock_slot (now : Z) (st : state) (ctx : Ctx.t)
    (priorMessage : option Snapshot.t) :
  lastUserMessages (finallyBlock now st ctx priorMessage) =
    let cleared :=
      match priorMessage with
      | Some _ => delete (Chat.id (Ctx.chat ctx)) (lastUserMessages st)
      | None => lastUserMessages st
      end in
    match snapshotUserMessage now (Ctx.message ctx) with
    | Some snapshot => <[Chat.id (Ctx.chat ctx) := snapshot]> cleared
    | None => cleared
    end.
Proof.
  unfold finallyBlock. rewrite rememberLastUserMessage_slot.
  by destruct priorMessage.
Qed.

(** ** Ineligible messages *)

(** C8, as the code has it: a group message that is no command, does not
    mention the bot, is no reply to the bot and finds no open invitation
    window gets no reply and leaves the invitation windows, the used ids
    and the rooms as they were; the last-message slot of its chat is
    overwritten with the message's snapshot when the message has a sender
    that is not a bot, and stays as it was otherwise; the slots of other
    chats are untouched. *)
Theorem ineligible_message_frame `{Platform} (e : env) (st : state) (ctx : Ctx.t) :
  isCommand (Ctx.message ctx) = false →
  isPrivate ctx = false →
  messageMentionsBot ctx = false →
  isReplyToBot ctx = false →
  isWithinPromptWindow (now e) st (Chat.id (Ctx.chat ctx)) = false →
  snd (handler e st ctx) = []
  ∧ promptWindows (fst (handler e st ctx)) = promptWindows st
  ∧ usedMessagesByChat (fst (handler e st ctx)) = usedMessagesByChat st
  ∧ rooms (fst (handler e st ctx)) = rooms st
  ∧ lastUserMessages (fst (handler e st ctx)) =
      match Message.from (Ctx.message ctx) with
      | Some sender =>
          if User.is_bot sender then lastUserMessages st
          else <[Chat.id (Ctx.chat ctx) :=
                   Snapshot.mk (Chat.id (Ctx.chat ctx)) (User.id sender)
                     (if Js.truthy_num (Message.date (Ctx.message ctx))
                      then Message.date (Ctx.message ctx) * 1000 else now e)
                     (Message.message_id (Ctx.message ctx))
                     (extractFromEntities (Ctx.message ctx))]>
                 (lastUserMessages st)
      | None => lastUserMessages st
      end.
Proof.
  intros Hcmd Hpriv Hmen Hrep Hwin.
  unfold handler, shouldHandleMessage, consumePromptWindow.
  rewrite Hcmd, Hpriv, Hmen, Hrep, Hwin. simpl.
  destruct (rememberLastUserMessage_frame (now e) st (Ctx.message ctx))
    as (-> & -> & ->).
  rewrite rememberLastUserMessage_slot. unfold snapshotUserMessage, Ctx.chat.
  do 4 (split; [done|]).
  destruct (Message.from (Ctx.message ctx)) as [sender|]; [|done].
  by destruct (User.is_bot sender).
Qed.

Lemma ineligible_message_frame_witness :
  snd (@handler examplePlatform envUp stRemembered
         (ctxOf (msgPlain 2 groupChat (Some alice)))) = [].
Proof.
  apply (@ineligible_message_frame examplePlatform envUp stRemembered
           (ctxOf (msgPlain 2 groupChat (Some alice)))); reflexivity.
Defined.

(** C8, as the specification states it, fails: an ineligible group
    message whose sender is a bot has no snapshot, and the slot keeps the
    snapshot of the earlier message instead of being overwritten. *)
Lemma ineligible_bot_message_keeps_slot :
  let message := msgPlain 2 groupChat (Some otherBot) in
  let after := fst (@handler examplePlatform envUp stRemembered (ctxOf message)) in
  fst (shouldHandleMessage (now envUp) stRemembered (ctxOf message)) = false
  ∧ snapshotUserMessage (now envUp) message = None
  ∧ lastUserMessages after !! Chat.id groupChat = Some snapA
  ∧ Snapshot.message_id snapA ≠ Message.message_id message.
Proof. vm_compute. repeat split; congruence. Qed.

(** ** Invitation window *)

Lemma isWithinPromptWindow_closed (later : Z) (st : state) (chatId : Z) :
  promptWindows st !! chatId = None → isWithinPromptWindow later st chatId = false.
Proof. unfold isWithinPromptWindow. by intros ->. Qed.

Lemma isWithinPromptWindow_expired (later : Z) (st : state) (chatId opened : Z) :
  promptWindows st !! chatId = Some opened →
  PROMPT_GRACE_PERIOD_MS < later - opened →
  isWithinPromptWindow later st chatId = false.
Proof.
  unfold isWithinPromptWindow. intros -> Hlate.
  destruct (Js.truthy_num opened); [|done]. simpl. by apply Z.leb_gt.
Qed.

(** A message that is eligible through the window alone: whatever it
    carries and whatever the room service answers, the handler ends with
    the chat's window entry deleted. *)
Lemma handler_passive_consumes `{Platform} (e : env) (st : state) (ctx : Ctx.t) :
  isCommand (Ctx.message ctx) = false →
  isPrivate ctx = false →
  messageMentionsBot ctx = false →
  isReplyToBot ctx = false →
  isWithinPromptWindow (now e) st (Chat.id (Ctx.chat ctx)) = true →
  promptWindows (fst (handler e st ctx))
  = delete (Chat.id (Ctx.chat ctx)) (promptWindows st).
Proof.
  intros Hcmd Hpriv Hmen Hrep Hwin.
  unfold handler, shouldHandleMessage, consumePromptWindow, priorMessageOf.
  rewrite Hcmd, Hpriv, Hmen, Hrep, Hwin. simpl.
  set (st1 := setPromptWindows st _).
  set (found := findUrl ctx None).
  destruct (_ && negb (Js.truthy_ostr (Resolution.url found))).
  { destruct (reply_ok e Reply.InvalidUrl); [|done]. simpl.
    by destruct (rememberLastUserMessage_frame (now e) st1 (Ctx.message ctx)) as (-> & _). }
  destruct (negb (Js.truthy_ostr (Resolution.url found)) || Resolution.invalid found).
  { simpl.
    by destruct (rememberLastUserMessage_frame (now e) st1 (Ctx.message ctx)) as (-> & _). }
  destruct (tryBlock e st1 ctx (Resolution.sourceMessageId found)) as [st2 replies] eqn:E.
  simpl. destruct (finallyBlock_frame (now e) st2 ctx None) as (-> & _).
  destruct (tryBlock_frame e st1 ctx (Resolution.sourceMessageId found)) as (Hp & _).
  by rewrite E in Hp.
Qed.

(** C7, as the code has it: while a chat's invitation window is open, a
    group message that is eligible through the window alone (no command,
    no mention, no reply to the bot) consumes it, whether or not the
    message carries a URL and whatever the room service answers: after
    the handler the chat has no window entry and no later message finds
    one open.  A window also counts as closed once more than the grace
    period has passed since it was opened. *)
Theorem window_consumed_by_passive_message `{Platform} (e : env) (st : state)
    (ctx : Ctx.t) :
  isCommand (Ctx.message ctx) = false →
  isPrivate ctx = false →
  messageMentionsBot ctx = false →
  isReplyToBot ctx = false →
  isWithinPromptWindow (now e) st (Chat.id (Ctx.chat ctx)) = true →
  fst (shouldHandleMessage (now e) st ctx) = true
  ∧ promptWindows (fst (handler e st ctx)) !! Chat.id (Ctx.chat ctx) = None
  ∧ (∀ later,
       isWithinPromptWindow later (fst (handler e st ctx)) (Chat.id (Ctx.chat ctx))
       = false)
  ∧ (∀ st0 opened later,
       promptWindows st0 !! Chat.id (Ctx.chat ctx) = Some opened →
       PROMPT_GRACE_PERIOD_MS < later - opened →
       isWithinPromptWindow later st0 (Chat.id (Ctx.chat ctx)) = false).
Proof.
  intros Hcmd Hpriv Hmen Hrep Hwin.
  assert (Hgone : promptWindows (fst (handler e st ctx)) !! Chat.id (Ctx.chat ctx) = None).
  { rewrite handler_passive_consumes by done. apply lookup_delete_eq. }
  split.
  { unfold shouldHandleMessage, consumePromptWindow.
    by rewrite Hpriv, Hmen, Hrep, Hwin. }
  split; [done|]. split.
  - intros later. by apply isWithinPromptWindow_closed.
  - intros st0 opened later. apply isWithinPromptWindow_expired.
Qed.

Lemma window_consumed_by_passive_message_witness :
  promptWindows
    (fst (@handler examplePlatform envUp stPrompted
            (ctxOf (msgPlain 2 groupChat (Some alice)))))
    !! Chat.id groupChat = None.
Proof.
  apply (@window_consumed_by_passive_message examplePlatform envUp stPrompted
           (ctxOf (msgPlain 2 groupChat (Some alice)))); reflexivity.
Defined.

(** C7, as the specification states it, fails: with the window open, a
    message that is eligible because it mentions the bot is processed
    (its link is added) and the window stays open. *)
Lemma window_survives_mention :
  let ctx := ctxOf (msgMentionUrl 2 (Some alice)) in
  let after := fst (@handler examplePlatform envUp stPrompted ctx) in
  isWithinPromptWindow (now envUp) stPrompted (Chat.id groupChat) = true
  ∧ isCommand (Ctx.message ctx) = false
  ∧ fst (shouldHandleMessage (now envUp) stPrompted ctx) = true
  ∧ snd (@handler examplePlatform envUp stPrompted ctx)
    = [Reply.Added "https://w2g.tv/rooms/room1"]
  ∧ promptWindows after !! Chat.id groupChat = Some 1000000
  ∧ isWithinPromptWindow (now envUp) after (Chat.id groupChat) = true.
Proof. vm_compute. repeat split. Qed.

(** ** Submission *)




(** ** Replay protection *)

Lemma findLoop_source `{Platform} (candidates : list Candidate.t) (id : Z) :
  Resolution.sourceMessageId (findLoop candidates) = Some id →
  ∃ candidate, candidate ∈ candidates ∧ Candidate.sourceId candidate = Some id.
Proof.
  induction candidates as [|c rest IH]; simpl; [done|].
  assert (Hrest : Resolution.sourceMessageId (findLoop rest) = Some id →
                  ∃ candidate, candidate ∈ c :: rest
                               ∧ Candidate.sourceId candidate = Some id).
  { intros (c' & Hin & Hsrc)%IH. exists c'. split; [by apply list_elem_of_further|done]. }
  assert (Hhere : Js.or_null_num (Candidate.sourceId c) = Some id →
                  ∃ candidate, candidate ∈ c :: rest
                               ∧ Candidate.sourceId candidate = Some id).
  { intros [Hsrc _]%or_null_num_Some. exists c. split; [apply list_elem_of_here|done]. }
  destruct (Js.or_null_str (Candidate.raw c)) as [raw|]; [|done].
  destruct (Js.truthy_ostr _); [done|].
  by destruct (Validated.invalid _).
Qed.

Lemma recentPreviousMessage_unused (now : Z) (st : state) (chatId : Z)
    (fromId : option Z) (prev : Snapshot.t) :
  recentPreviousMessage now st chatId fromId = Some prev →
  isMessageUsed st chatId (Snapshot.message_id prev) = false.
Proof.
  unfold recentPreviousMessage.
  destruct (lastUserMessages st !! chatId) as [p|]; [|done].
  destruct (match Js.or_null_num fromId with Some _ => _ | None => _ end); [done|].
  destruct (isMessageUsed st chatId (Snapshot.message_id p)) eqn:E; [done|].
  destruct (_ <? _); [done|]. by intros [= <-].
Qed.

(** C1, as the code has it: replay protection guards the remembered
    last-message path.  The remembered message handed to the resolver is
    never one whose id is in the chat's used set, so an id in the set is
    returned as source only if it is the id of the current message or of
    the replied-to message the resolver may use; those two paths are not
    checked against the set. *)
Theorem resolver_skips_used_remembered `{Platform} (now : Z) (st : state)
    (ctx : Ctx.t) (id : Z) :
  isMessageUsed st (Chat.id (Ctx.chat ctx)) id = true →
  (∀ prev, priorMessageOf now st ctx = Some prev → Snapshot.message_id prev ≠ id)
  ∧ (id ≠ Message.message_id (Ctx.message ctx) →
     (∀ reply, usableReply (Ctx.message ctx) = Some reply →
               id ≠ Message.message_id reply) →
     Resolution.sourceMessageId (findUrl ctx (priorMessageOf now st ctx)) ≠ Some id).
Proof.
  intros Hused.
  assert (Hprior : ∀ prev, priorMessageOf now st ctx = Some prev →
                           Snapshot.message_id prev ≠ id).
  { intros prev Hp <-. unfold priorMessageOf in Hp.
    destruct (messageMentionsBot ctx); [|done].
    apply recentPreviousMessage_unused in Hp. congruence. }
  split; [done|].
  intros Hcur Hreply Hsrc. unfold findUrl, candidatesOf in Hsrc.
  apply findLoop_source in Hsrc as (c & Hin & Hc).
  apply elem_of_app in Hin as [Hin|Hin].
  - apply elem_of_cons in Hin as [->|Hin].
    { simpl in Hc. congruence. }
    apply list_elem_of_singleton in Hin as ->.
    destruct (usableReply (Ctx.message ctx)) as [reply|] eqn:E; simpl in Hc; [|done].
    specialize (Hreply reply eq_refl). congruence.
  - destruct (priorMessageOf now st ctx) as [prev|] eqn:E.
    + destruct (Js.truthy_ostr (Snapshot.url prev)).
      * apply list_elem_of_singleton in Hin as ->. simpl in Hc.
        specialize (Hprior prev eq_refl). congruence.
      * by apply elem_of_nil in Hin.
    + by apply elem_of_nil in Hin.
Qed.

Lemma resolver_skips_used_remembered_witness :
  Resolution.sourceMessageId
    (@findUrl examplePlatform (ctxOf (msgMention 3 (Some alice) None))
       (priorMessageOf 1010000 stUsed (ctxOf (msgMention 3 (Some alice) None))))
  ≠ Some 1.
Proof.
  destruct (@resolver_skips_used_remembered examplePlatform 1010000 stUsed
              (ctxOf (msgMention 3 (Some alice) None)) 1) as [_ Hsource];
    [reflexivity|].
  apply Hsource; [discriminate|]. intros reply Hreply. discriminate Hreply.
Defined.

(** C1, as the specification states it, fails: message 1 is in the used
    set, and a mention that replies to message 1 still resolves to the
    link of message 1, with message 1 as its source, and adds it again. *)
Lemma used_reply_is_offered_again :
  let ctx := ctxOf (msgMention 3 (Some alice)
                      (Some (msgWithUrl 1 groupChat (Some alice)))) in
  isMessageUsed stUsed (Chat.id groupChat) 1 = true
  ∧ @findUrl examplePlatform ctx (priorMessageOf (now envUp) stUsed ctx)
    = Resolution.mk (Some "https://example.com/a") false (Some 1)
  ∧ snd (@handler examplePlatform envUp stUsed ctx)
    = [Reply.Added "https://w2g.tv/rooms/room1"].
Proof. vm_compute. repeat split. Qed.

(** ** The store invariant along the handler *)

Lemma markPrompt_used (now : Z) (st : state) (chatId : Z) :
  usedMessagesByChat (markPrompt now st chatId) = usedMessagesByChat st.
Proof. done. Qed.

(** X21: every activation of the message handler keeps the anti-replay
    store well formed: if every chat's queue and set hold the same ids,
    none twice and at most twenty, before the message (as in the initial
    state), they do so after it. *)
Lemma handler_keeps_storeOk `{Platform} (e : env) (st : state) (ctx : Ctx.t) :
  storeOk (usedMessagesByChat st) →
  storeOk (usedMessagesByChat (fst (handler e st ctx))).
Proof.
  intros Hok. unfold handler.
  destruct (isCommand _); [done|].
  destruct (shouldHandleMessage_frame (now e) st ctx) as (_ & Hu1 & _).
  destruct (shouldHandleMessage (now e) st ctx) as [handle st1]. simpl in Hu1.
  rewrite <- Hu1 in Hok. clear Hu1.
  destruct handle; simpl.
  2: { by destruct (rememberLastUserMessage_frame (now e) st1 (Ctx.message ctx))
         as (_ & -> & _). }
  set (prior := priorMessageOf (now e) st1 ctx).
  set (found := findUrl ctx prior).
  destruct (_ && negb (Js.truthy_ostr (Resolution.url found))).
  { destruct (reply_ok e Reply.InvalidUrl); [|done]. simpl.
    by destruct (rememberLastUserMessage_frame (now e) st1 (Ctx.message ctx))
      as (_ & -> & _). }
  destruct (negb (Js.truthy_ostr (Resolution.url found)) || Resolution.invalid found).
  { destruct (negb _); simpl.
    { by destruct (rememberLastUserMessage_frame (now e) st1 (Ctx.message ctx))
        as (_ & -> & _). }
    destruct (reply_ok e Reply.PromptForLink); [|done]. simpl.
    by destruct (rememberLastUserMessage_frame (now e)
                   (markPrompt (now e) st1 (Chat.id (Ctx.chat ctx))) (Ctx.message ctx))
      as (_ & -> & _). }
  destruct (tryBlock_used e st1 ctx (Resolution.sourceMessageId found))
    as [[_ Hu]|(k & st' & _ & _ & _ & _ & Hu)];
    destruct (tryBlock e st1 ctx (Resolution.sourceMessageId found)) as [st2 replies];
    simpl in *;
    destruct (finallyBlock_frame (now e) st2 ctx prior) as (_ & ->); rewrite Hu.
  - done.
  - by apply markMessagesUsed_storeOk.
Qed.

Lemma initialState_storeOk : storeOk (usedMessagesByChat initialState).
Proof. apply storeOk_empty. Qed.

Lemma handler_keeps_storeOk_witness :
  storeOk (usedMessagesByChat
             (fst (@handler examplePlatform envUp initialState
                     (ctxOf (msgMentionUrl 2 (Some alice)))))).
Proof.
  apply (@handler_keeps_storeOk examplePlatform envUp initialState
           (ctxOf (msgMentionUrl 2 (Some alice)))).
  intros c b Hc. simpl in Hc. rewrite lookup_empty in Hc. discriminate.
Defined.

(** ** The scenarios of the specification, run on the model *)

(** Scenario B: a bare mention is answered with the prompt and opens the
    window; a link sent ten seconds later without a mention is added. *)
Example scenario_prompt_then_link :
  let prompted :=
    @handler examplePlatform envUp initialState (ctxOf (msgMention 2 (Some alice) None)) in
  let fulfilled :=
    @handler examplePlatform (mkEnv 1020000 (Some "room1") true (λ _, true))
      (fst prompted) (ctxOf (msgWithUrl 3 groupChat (Some alice))) in
  snd prompted = [Reply.PromptForLink]
  ∧ promptWindows (fst prompted) !! Chat.id groupChat = Some 1010000
  ∧ snd fulfilled = [Reply.Added "https://w2g.tv/rooms/room1"]
  ∧ promptWindows (fst fulfilled) !! Chat.id groupChat = None
  ∧ isMessageUsed (fst fulfilled) (Chat.id groupChat) 3 = true.
Proof. vm_compute. repeat split. Qed.

(** Scenario C: the same link sent sixty-five seconds after the prompt
    finds the window expired and is passed over in silence. *)
Example scenario_link_after_grace_period :
  let prompted :=
    @handler examplePlatform envUp initialState (ctxOf (msgMention 2 (Some alice) None)) in
  let late :=
    @handler examplePlatform (mkEnv 1075000 (Some "room1") true (λ _, true))
      (fst prompted) (ctxOf (msgWithUrl 3 groupChat (Some alice))) in
  snd late = []
  ∧ usedMessagesByChat (fst late) = usedMessagesByChat (fst prompted)
  ∧ rooms (fst late) = ∅.
Proof. vm_compute. repeat split. Qed.

(** Scenario E: a URL span over text the parser rejects, in a direct
    conversation, is answered with the invalid-URL notice. *)
Example scenario_invalid_url :
  snd (@handler examplePlatform envUp initialState
         (ctxOf (Message.mk 4 privateChat (Some alice) 1010 (Some "exa mple") None
                   (Some [Entity.mk "url" 0 8 None]) None None)))
  = [Reply.InvalidUrl].
Proof. vm_compute. reflexivity. Qed.

(** * Further properties of the code *)

(** ** Invitation window *)

(** X1: an invitation window is consumed at most once: after a call of
    [consumePromptWindow] that found the window open, no later call for
    that chat finds it open, and such a call leaves the state alone. *)
Theorem consumePromptWindow_once (now : Z) (st st' : state) (chatId : Z) :
  consumePromptWindow now st chatId = (true, st') →
  ∀ later, consumePromptWindow later st' chatId = (false, st').
Proof.
  unfold consumePromptWindow.
  destruct (isWithinPromptWindow now st chatId); [|discriminate].
  intros [= <-] later.
  rewrite isWithinPromptWindow_closed; [done|].
  simpl. apply lookup_delete_eq.
Qed.

Lemma consumePromptWindow_once_witness :
  consumePromptWindow 1070000
    (setPromptWindows stPrompted (delete (-100) (promptWindows stPrompted))) (-100)
  = (false, setPromptWindows stPrompted (delete (-100) (promptWindows stPrompted))).
Proof.
  apply (consumePromptWindow_once 1010000 stPrompted _ (-100)). reflexivity.
Defined.

Lemma isWithinPromptWindow_markPrompt (now later : Z) (st : state) (chatId : Z) :
  isWithinPromptWindow later (markPrompt now st chatId) chatId
  = negb (now =? 0) && (later - now <=? PROMPT_GRACE_PERIOD_MS).
Proof.
  unfold isWithinPromptWindow, markPrompt. simpl.
  rewrite lookup_insert_eq. unfold Js.truthy_num. by destruct (now =? 0).
Qed.

(** X2: a window opened by [markPrompt] at time [now] is open at a later
    instant exactly when [now] is not 0 and at most the grace period of
    60000 ms has passed, the last instant included; the windows of other
    chats are not affected. *)
Theorem markPrompt_window (now later : Z) (st : state) (chatId : Z) :
  isWithinPromptWindow later (markPrompt now st chatId) chatId
  = negb (now =? 0) && (later - now <=? PROMPT_GRACE_PERIOD_MS)
  ∧ ∀ other, other ≠ chatId →
      isWithinPromptWindow later (markPrompt now st chatId) other
      = isWithinPromptWindow later st other.
Proof.
  split; [apply isWithinPromptWindow_markPrompt|].
  intros other Hne. unfold isWithinPromptWindow, markPrompt. simpl.
  by rewrite lookup_insert_ne.
Qed.

(** ** Anti-replay store *)

Lemma evictLoop_short (set : gset Z) (queue : list Z) :
  (List.length queue ≤ 20)%nat → evictLoop set queue = Bucket.mk set queue.
Proof.
  intros Hlen. destruct queue as [|old rest]; [done|].
  cbn [evictLoop]. by apply Nat.ltb_ge in Hlen as ->.
Qed.

(** An id that a call adds to the queue survives the eviction of the
    same call when the call marks at most twenty ids. *)
Lemma markMessagesUsed_new_member (chatId : Z) (ids : list Z)
    (used : gmap Z Bucket.t) (id : Z) :
  storeOk used →
  (List.length ids ≤ 20)%nat →
  id ∈ ids → id ≠ 0 → id ∉ Bucket.set (bucketBefore chatId used) →
  ∃ bucket, markMessagesUsed chatId ids used !! chatId = Some bucket
            ∧ id ∈ Bucket.set bucket.
Proof.
  intros Hok Hlen Hin Hnz Hnew.
  destruct (markMessagesUsed_lookup chatId ids used) as [Hhere _].
  destruct (bucketBefore_ok chatId used Hok) as (Hnd & Hsame & Hlen0).
  destruct (markLoop_spec ids _ Hnd Hsame) as (added & Hq & Hnd' & Hsame' & Hadded).
  destruct (evictLoop_spec _ _ Hnd' Hsame') as (Hdrop & _ & Hsame'' & _).
  eexists. split; [exact Hhere|]. cbv zeta.
  apply Hsame''. rewrite Hdrop, Hq.
  assert (Hshort : (List.length added ≤ List.length ids)%nat).
  { apply submseteq_length, NoDup_submseteq.
    - rewrite Hq in Hnd'. by apply NoDup_app in Hnd' as (_ & _ & ?).
    - intros x Hx. by apply Hadded in Hx as [? _]. }
  rewrite drop_app_le by (rewrite length_app; lia).
  apply elem_of_app. right. by apply Hadded.
Qed.

(** X3: a call of [markMessagesUsed] with at most twenty ids marks every
    non-zero id of the call that was not yet used: [isMessageUsed]
    answers true for it afterwards. *)
Theorem markMessagesUsed_marks (st : state) (chatId : Z) (ids : list Z) (id : Z) :
  storeOk (usedMessagesByChat st) →
  (List.length ids ≤ 20)%nat →
  id ∈ ids → id ≠ 0 → isMessageUsed st chatId id = false →
  isMessageUsed
    (setUsedMessagesByChat st (markMessagesUsed chatId ids (usedMessagesByChat st)))
    chatId id = true.
Proof.
  intros Hok Hlen Hin Hnz Hunused.
  assert (Hnew : id ∉ Bucket.set (bucketBefore chatId (usedMessagesByChat st))).
  { unfold isMessageUsed, Js.truthy_num in Hunused. unfold bucketBefore.
    apply Z.eqb_neq in Hnz. rewrite Hnz in Hunused. simpl in Hunused.
    destruct (usedMessagesByChat st !! chatId) as [b|]; simpl.
    - by apply bool_decide_eq_false in Hunused.
    - set_solver. }
  destruct (markMessagesUsed_new_member chatId ids _ id Hok Hlen Hin Hnz Hnew)
    as (bucket & Hb & Hid).
  unfold isMessageUsed, Js.truthy_num. simpl.
  apply Z.eqb_neq in Hnz. rewrite Hnz, Hb. simpl. by apply bool_decide_eq_true.
Qed.

Lemma markMessagesUsed_marks_witness :
  isMessageUsed
    (setUsedMessagesByChat stRemembered
       (markMessagesUsed (-100) [1; 2] (usedMessagesByChat stRemembered)))
    (-100) 2 = true.
Proof.
  apply (markMessagesUsed_marks stRemembered (-100) [1; 2] 2).
  - intros c b Hc. simpl in Hc. rewrite lookup_empty in Hc. discriminate.
  - simpl. lia.
  - apply list_elem_of_further, list_elem_of_here.
  - discriminate.
  - reflexivity.
Defined.

Lemma markLoop_known (ids : list Z) (bucket : Bucket.t) :
  (∀ id, id ∈ ids → id = 0 ∨ id ∈ Bucket.set bucket) →
  markLoop ids bucket = bucket.
Proof.
  induction ids as [|id rest IH]; intros Hknown; [done|].
  simpl. unfold Js.truthy_num.
  assert (Hrest : ∀ x, x ∈ rest → x = 0 ∨ x ∈ Bucket.set bucket).
  { intros x Hx. apply Hknown. by apply list_elem_of_further. }
  destruct (Z.eqb_spec id 0) as [->|Hid]; simpl; [by apply IH|].
  destruct (Hknown id (list_elem_of_here _ _)) as [?|Hin]; [done|].
  rewrite bool_decide_eq_true_2 by done.
  replace ({[id]} ∪ Bucket.set bucket) with (Bucket.set bucket) by set_solver.
  destruct bucket as [set queue]. simpl in *. by apply IH.
Qed.

(** X4: marking ids that are falsy or already in the chat's used set
    adds no id and reorders nothing.  If the chat has a bucket, the store
    stays exactly as it is, so such an id does not move to the back of
    the eviction queue; if the chat has none, the only change is that an
    empty bucket is created for it.  In both cases [isMessageUsed]
    answers as before for every chat and id. *)
Theorem markMessagesUsed_known_ids (chatId : Z) (ids : list Z)
    (used : gmap Z Bucket.t) :
  storeOk used →
  (∀ id, id ∈ ids → id = 0 ∨ id ∈ Bucket.set (bucketBefore chatId used)) →
  (is_Some (used !! chatId) → markMessagesUsed chatId ids used = used)
  ∧ (used !! chatId = None →
     markMessagesUsed chatId ids used = <[chatId := Bucket.empty]> used)
  ∧ ∀ st chat id,
      usedMessagesByChat st = used →
      isMessageUsed
        (setUsedMessagesByChat st (markMessagesUsed chatId ids used)) chat id
      = isMessageUsed st chat id.
Proof.
  intros Hok Hknown.
  assert (Hresult : markMessagesUsed chatId ids used
                    = <[chatId := bucketBefore chatId used]> used).
  { pose proof (bucketBefore_ok chatId used Hok) as (_ & _ & Hlen).
    unfold markMessagesUsed, getUsedBucket. unfold bucketBefore in *.
    destruct (used !! chatId) as [bucket|] eqn:Hb; simpl in *.
    - rewrite markLoop_known by done. rewrite evictLoop_short by done.
      by destruct bucket.
    - rewrite markLoop_known by done. simpl. by rewrite insert_insert_eq. }
  split; [|split].
  - intros [bucket Hb]. rewrite Hresult. unfold bucketBefore. rewrite Hb. simpl.
    by apply insert_id.
  - intros Hb. rewrite Hresult. unfold bucketBefore. by rewrite Hb.
  - intros st chat id <-. unfold isMessageUsed. simpl. rewrite Hresult.
    destruct (negb (Js.truthy_num id)); [done|].
    destruct (decide (chat = chatId)) as [->|Hne].
    + rewrite lookup_insert_eq. unfold bucketBefore.
      destruct (usedMessagesByChat st !! chatId) as [bucket|]; simpl; [done|].
      apply bool_decide_eq_false. set_solver.
    + by rewrite lookup_insert_ne.
Qed.

Lemma markMessagesUsed_known_ids_witness :
  markMessagesUsed (-100) [1; 0; 1] (usedMessagesByChat stUsed)
  = usedMessagesByChat stUsed
  ∧ markMessagesUsed (-100) [0] ∅ = <[(-100) := Bucket.empty]> ∅.
Proof.
  split.
  - apply (markMessagesUsed_known_ids (-100) [1; 0; 1] (usedMessagesByChat stUsed)).
    + intros c b Hc. simpl in Hc.
      apply lookup_singleton_Some in Hc as [_ <-].
      split; [apply NoDup_singleton|]. split; [|simpl; lia].
      intros id. simpl. rewrite elem_of_singleton, list_elem_of_singleton. done.
    + intros id Hid.
      apply elem_of_cons in Hid as [->|Hid]; [right; vm_compute; set_solver|].
      apply elem_of_cons in Hid as [->|Hid]; [by left|].
      apply list_elem_of_singleton in Hid as ->. right. vm_compute. set_solver.
    + by eexists.
  - apply (markMessagesUsed_known_ids (-100) [0] ∅).
    + intros c b Hc. rewrite lookup_empty in Hc. discriminate.
    + intros id Hid. apply list_elem_of_singleton in Hid as ->. by left.
    + apply lookup_empty.
Defined.

(** ** Last-message slot *)

(** X5: a message remembered by [rememberLastUserMessage] is what
    [recentPreviousMessage] returns for the same chat and sender at any
    instant at most 30000 ms after the snapshot's time stamp, unless its
    id is in the chat's used set. *)
Theorem remembered_message_is_recent (now later : Z) (st : state)
    (message : Message.t) (snapshot : Snapshot.t) :
  snapshotUserMessage now message = Some snapshot →
  isMessageUsed st (Chat.id (Message.chat message)) (Message.message_id message)
    = false →
  later - Snapshot.date snapshot ≤ PREVIOUS_MESSAGE_WINDOW_MS →
  recentPreviousMessage later (rememberLastUserMessage now st message)
    (Chat.id (Message.chat message)) (Some (Snapshot.fromId snapshot))
  = Some snapshot.
Proof.
  intros Hsnap Hunused Hage.
  assert (Hid : Snapshot.message_id snapshot = Message.message_id message).
  { unfold snapshotUserMessage in Hsnap.
    destruct (Message.from message) as [u|]; [|done].
    destruct (User.is_bot u); [done|]. by injection Hsnap as <-. }
  unfold recentPreviousMessage.
  rewrite rememberLastUserMessage_slot, Hsnap, lookup_insert_eq.
  assert (Hused : isMessageUsed (rememberLastUserMessage now st message)
                    (Chat.id (Message.chat message)) (Snapshot.message_id snapshot)
                  = false).
  { unfold isMessageUsed in *.
    destruct (rememberLastUserMessage_frame now st message) as (_ & -> & _).
    by rewrite Hid. }
  rewrite Hused. simpl.
  destruct (Js.truthy_num (Snapshot.fromId snapshot)); simpl;
    rewrite ?Z.eqb_refl; simpl; by apply Z.ltb_ge in Hage as ->.
Qed.

Lemma remembered_message_is_recent_witness :
  recentPreviousMessage 1020000
    (rememberLastUserMessage 5 initialState (msgWithUrl 1 groupChat (Some alice)))
    (-100) (Some 7)
  = Some (Snapshot.mk (-100) 7 1000000 1 (Some "https://example.com/a")).
Proof.
  apply (remembered_message_is_recent 5 1020000 initialState
           (msgWithUrl 1 groupChat (Some alice))
           (Snapshot.mk (-100) 7 1000000 1 (Some "https://example.com/a")));
    [reflexivity | reflexivity | vm_compute; discriminate].
Defined.

(** ** Rooms *)

(** X6: a room that [ensureRoom] has returned, with a key that
    [createRoom] can produce, is persisted: every later [ensureRoom] for
    the chat returns the same key without changing the state, whatever
    the room service would answer then. *)
Theorem ensureRoom_persists (e : env) (response : option RoomResponse.t)
    (st st1 : state) (chatId : Z) (streamkey : string) :
  createRoom_result e = createRoom response →
  ensureRoom e st chatId = Some (streamkey, st1) →
  ∀ e', ensureRoom e' st1 chatId = Some (streamkey, st1).
Proof.
  intros Hcreate Hroom e'. unfold ensureRoom in *.
  destruct (Js.or_null_str (rooms st !! chatId)) as [k|] eqn:Hk.
  - injection Hroom as <- <-. by rewrite Hk.
  - rewrite Hcreate in Hroom.
    destruct (createRoom response) as [k|] eqn:Hc; [|done].
    injection Hroom as <- <-. simpl. rewrite lookup_insert_eq.
    unfold createRoom in Hc. destruct response as [res|]; [|done].
    destruct (RoomResponse.ok res); [|done]. simpl in Hc.
    apply or_null_str_Some in Hc as [_ Hne].
    apply truthy_str_true in Hne. simpl. by rewrite Hne.
Qed.

Lemma ensureRoom_persists_witness :
  ensureRoom envDown
    (setRooms initialState (<[(-100) := "room1"]> (rooms initialState))) (-100)
  = Some ("room1", setRooms initialState (<[(-100) := "room1"]> (rooms initialState))).
Proof.
  apply (ensureRoom_persists envUp (Some (RoomResponse.mk true (Some "room1")))
           initialState _ (-100) "room1"); reflexivity.
Defined.

(** X7: [/clear] replaces the chat's room only when [createRoom]
    succeeds: when it throws, the state is unchanged and the only reply
    is the failure notice; when it returns a key, that key is stored even
    if the confirmation cannot be delivered, and a following [/room]
    reports it without creating another room. *)
Theorem clearCommand_replaces_room (e : env) (deliver : CommandReply.t → bool)
    (st : state) (ctx : Ctx.t) :
  (createRoom_result e = None →
   clearCommand e deliver st ctx
   = (st, if deliver CommandReply.ClearFailed then [CommandReply.ClearFailed] else []))
  ∧ (∀ streamkey, createRoom_result e = Some streamkey → streamkey ≠ "" →
       rooms (fst (clearCommand e deliver st ctx)) !! Chat.id (Ctx.chat ctx)
       = Some streamkey
       ∧ ∀ e' deliver',
           deliver' (CommandReply.Room (buildRoomLink streamkey)) = true →
           roomCommand e' deliver' (fst (clearCommand e deliver st ctx)) ctx
           = (fst (clearCommand e deliver st ctx),
              [CommandReply.Room (buildRoomLink streamkey)])).
Proof.
  unfold clearCommand. split.
  - by intros ->.
  - intros streamkey -> Hne.
    set (st1 := setRooms st _).
    assert (Hst : fst (if deliver (CommandReply.Cleared (buildRoomLink streamkey))
                       then (st1, [CommandReply.Cleared (buildRoomLink streamkey)])
                       else (st1, if deliver CommandReply.ClearFailed
                                  then [CommandReply.ClearFailed] else [])) = st1)
      by (by destruct (deliver _)).
    rewrite Hst. split; [apply lookup_insert_eq|].
    intros e' deliver' Hd. unfold roomCommand, ensureRoom.
    subst st1. simpl. rewrite lookup_insert_eq. simpl.
    apply truthy_str_true in Hne. rewrite Hne. by rewrite Hd.
Qed.

(** X8: [/start] invites a link: once its welcome reply is delivered at
    a time other than 0, any message of that chat that is handled within
    the grace period of 60000 ms is eligible, mention or not. *)
Theorem startCommand_invites (now later : Z) (deliver : CommandReply.t → bool)
    (st : state) (ctx next : Ctx.t) :
  deliver CommandReply.Welcome = true →
  now ≠ 0 →
  later - now ≤ PROMPT_GRACE_PERIOD_MS →
  Chat.id (Ctx.chat next) = Chat.id (Ctx.chat ctx) →
  fst (shouldHandleMessage later (fst (startCommand now deliver st ctx)) next) = true.
Proof.
  intros Hd Hnow Hlate Hchat.
  unfold startCommand, shouldHandleMessage, consumePromptWindow. rewrite Hd. simpl.
  destruct (isPrivate next); [done|].
  destruct (messageMentionsBot next); [done|].
  destruct (isReplyToBot next); [done|].
  rewrite Hchat, isWithinPromptWindow_markPrompt.
  apply Z.eqb_neq in Hnow. apply Z.leb_le in Hlate. by rewrite Hnow, Hlate.
Qed.

Lemma startCommand_invites_witness :
  fst (shouldHandleMessage 1020000
         (fst (startCommand 1010000 (λ _, true) initialState
                 (ctxOf (msgPlain 1 groupChat (Some alice)))))
         (ctxOf (msgPlain 2 groupChat (Some alice)))) = true.
Proof.
  apply (startCommand_invites 1010000 1020000 (λ _, true) initialState
           (ctxOf (msgPlain 1 groupChat (Some alice)))
           (ctxOf (msgPlain 2 groupChat (Some alice))));
    [reflexivity | discriminate | vm_compute; discriminate | reflexivity].
Defined.

(** ** Candidate resolver *)

Lemma validateCandidate_shape `{Platform} (raw : string) :
  (Js.truthy_ostr (Validated.url (validateCandidate raw)) = true
   ∧ Validated.invalid (validateCandidate raw) = false)
  ∨ validateCandidate raw = Validated.mk None true
  ∨ (Js.truthy_ostr (Validated.url (validateCandidate raw)) = false
     ∧ Validated.invalid (validateCandidate raw) = false).
Proof.
  unfold validateCandidate.
  destruct (Js.truthy_str raw); simpl; [|by right; right].
  destruct (new_URL _) as [parsed|]; [|by right; left].
  destruct (isWebProtocol _); simpl; [|by right; right].
  destruct (Js.truthy_str (URL.href parsed)) eqn:E; [left|right; right]; done.
Qed.

Lemma findLoop_trichotomy `{Platform} (candidates : list Candidate.t) :
  (Js.truthy_ostr (Resolution.url (findLoop candidates)) = true
   ∧ Resolution.invalid (findLoop candidates) = false)
  ∨ (Resolution.url (findLoop candidates) = None
     ∧ Resolution.invalid (findLoop candidates) = true)
  ∨ findLoop candidates = Resolution.mk None false None.
Proof.
  induction candidates as [|c rest IH]; simpl; [by right; right|].
  destruct (Js.or_null_str (Candidate.raw c)) as [raw|]; [|done].
  destruct (validateCandidate_shape raw) as [[Hu Hi]|[Hv|[Hu Hi]]].
  - rewrite Hu. simpl. by left.
  - rewrite Hv. simpl. by right; left.
  - by rewrite Hu, Hi.
Qed.

(** X9: the resolver's result is of exactly one of three kinds: a
    non-empty URL that is not marked invalid; no URL, marked invalid; or
    the "no URL found" result, not invalid and with no source. *)
Theorem findUrl_trichotomy `{Platform} (ctx : Ctx.t)
    (previousMessage : option Snapshot.t) :
  (Js.truthy_ostr (Resolution.url (findUrl ctx previousMessage)) = true
   ∧ Resolution.invalid (findUrl ctx previousMessage) = false)
  ∨ (Resolution.url (findUrl ctx previousMessage) = None
     ∧ Resolution.invalid (findUrl ctx previousMessage) = true)
  ∨ findUrl ctx previousMessage = Resolution.mk None false None.
Proof. apply findLoop_trichotomy. Qed.

Lemma extractFromEntities_nonempty (message : Message.t) (u : string) :
  extractFromEntities message = Some u → u ≠ "".
Proof. by intros (_ & _ & _ & [? _] & _)%extractLoop_first. Qed.

(** X10: the current message comes first: when its own annotations yield
    a string that validates to a URL, or that the parser rejects, the
    resolver returns that verdict with the current message as source,
    whatever the replied-to message and the remembered message hold. *)
Theorem findUrl_current_first `{Platform} (ctx : Ctx.t)
    (previousMessage : option Snapshot.t) (raw : string) :
  extractFromEntities (Ctx.message ctx) = Some raw →
  Js.truthy_ostr (Validated.url (validateCandidate raw)) = true
  ∨ Validated.invalid (validateCandidate raw) = true →
  findUrl ctx previousMessage
  = Resolution.mk (Validated.url (validateCandidate raw))
      (Validated.invalid (validateCandidate raw))
      (Js.or_null_num (Some (Message.message_id (Ctx.message ctx)))).
Proof.
  intros Hraw Hverdict. unfold findUrl, candidatesOf. simpl.
  rewrite Hraw. apply extractFromEntities_nonempty, truthy_str_true in Hraw.
  cbn [Js.or_null_str]. rewrite Hraw.
  destruct (Js.truthy_ostr (Validated.url (validateCandidate raw))); [done|].
  by destruct Hverdict as [?| ->].
Qed.

Lemma findUrl_current_first_witness :
  @findUrl examplePlatform (ctxOf (msgMentionUrl 2 (Some alice))) (Some snapA)
  = Resolution.mk (Some "https://example.com/a") false (Some 2).
Proof.
  apply (@findUrl_current_first examplePlatform (ctxOf (msgMentionUrl 2 (Some alice)))
           (Some snapA) "https://example.com/a");
    [reflexivity | left; reflexivity].
Defined.

(** X11: a replied-to message written by a bot is never a source: the
    resolver's result is what it would be if the message were no reply
    at all. *)
Theorem findUrl_ignores_bot_reply `{Platform} (ctx : Ctx.t)
    (previousMessage : option Snapshot.t) (reply : Message.t) (author : User.t) :
  Message.reply_to_message (Ctx.message ctx) = Some reply →
  Message.from reply = Some author →
  User.is_bot author = true →
  findUrl ctx previousMessage
  = findUrl (ctxWith ctx (withReply (Ctx.message ctx) None)) previousMessage.
Proof.
  intros Hreply Hfrom Hbot. unfold findUrl, candidatesOf, usableReply.
  rewrite Hreply, Hfrom, Hbot. done.
Qed.

Lemma findUrl_ignores_bot_reply_witness :
  @findUrl examplePlatform
    (ctxOf (msgMention 3 (Some alice) (Some (msgWithUrl 1 groupChat (Some otherBot)))))
    None
  = Resolution.mk None false None.
Proof.
  rewrite (@findUrl_ignores_bot_reply examplePlatform _ None
             (msgWithUrl 1 groupChat (Some otherBot)) otherBot);
    reflexivity.
Defined.

(** ** Substrings *)

Lemma prefix_refl_substring (m : nat) (s : string) :
  String.prefix (String.substring 0 m s) s = true.
Proof.
  revert s. induction m as [|m IH]; intros [|c s]; simpl; try done.
  destruct (ascii_dec c c); [apply IH|done].
Qed.

Lemma includes_prefix (needle s : string) :
  String.prefix needle s = true → Js.includes needle s = true.
Proof. intros Hp. destruct s; cbn [Js.includes]; by rewrite Hp. Qed.

Lemma includes_tail (needle : string) (c : ascii) (s : string) :
  Js.includes needle s = true → Js.includes needle (String c s) = true.
Proof. intros Hi. cbn [Js.includes]. rewrite Hi. apply orb_true_r. Qed.

(** What [String.substring] cuts out of a string occurs in it. *)
Lemma includes_substring (n m : nat) (s : string) :
  Js.includes (String.substring n m s) s = true.
Proof.
  revert s. induction n as [|n IH]; intros s.
  - apply includes_prefix, prefix_refl_substring.
  - destruct s as [|c s]; [done|]. cbn [String.substring].
    apply includes_tail, IH.
Qed.

Lemma includes_js_substring (s : string) (a b : Z) :
  Js.includes (Js.substring s a b) s = true.
Proof. apply includes_substring. Qed.

Lemma toLowerCase_substring (n m : nat) (s : string) :
  Js.toLowerCase (String.substring n m s) = String.substring n m (Js.toLowerCase s).
Proof.
  revert m s. induction n as [|n IH]; intros m s.
  - revert s. induction m as [|m IHm]; intros [|c s]; simpl; try done.
    by rewrite IHm.
  - destruct s as [|c s]; [by destruct m|]. cbn [String.substring Js.toLowerCase].
    apply IH.
Qed.

Lemma toLowerCase_length (s : string) :
  String.length (Js.toLowerCase s) = String.length s.
Proof. induction s as [|c s IH]; simpl; by rewrite ?IH. Qed.

(** ** Entity extractor *)

(** X12: whatever the extractor returns is a non-empty string that
    either occurs in the message's text (or caption) or is the attached
    URL of one of its text-link annotations; nothing else can come out. *)
Theorem extractFromEntities_provenance (message : Message.t) (u : string) :
  extractFromEntities message = Some u →
  u ≠ ""
  ∧ (Js.includes u (getText message) = true
     ∨ ∃ entity, entity ∈ entitiesOf message
                 ∧ Entity.type entity = "text_link"
                 ∧ Entity.url entity = Some u).
Proof.
  intros (i & entity & Hi & [Hne Hy] & _)%extractLoop_first.
  split; [done|]. destruct Hy as [[_ ->]|[Hty Hurl]].
  - left. apply includes_js_substring.
  - right. exists entity. split; [by eapply list_elem_of_lookup_2|done].
Qed.

Lemma extractFromEntities_provenance_witness :
  "https://example.com/a" ≠ ""
  ∧ (Js.includes "https://example.com/a"
       (getText (msgMentionUrl 2 (Some alice))) = true
     ∨ ∃ entity, entity ∈ entitiesOf (msgMentionUrl 2 (Some alice))
                 ∧ Entity.type entity = "text_link"
                 ∧ Entity.url entity = Some "https://example.com/a").
Proof.
  apply (extractFromEntities_provenance (msgMentionUrl 2 (Some alice))).
  reflexivity.
Defined.

(** ** Trigger classifier *)

(** X13: mention detection is exactly a case-insensitive substring test:
    the bot is mentioned if and only if the lower-cased text contains
    "@" followed by the lower-cased bot name; the scan of the mention
    annotations never changes the answer. *)
Theorem messageMentionsBot_substring (ctx : Ctx.t) :
  messageMentionsBot ctx
  = Js.includes (mentionTag ctx) (Js.toLowerCase (getText (Ctx.message ctx))).
Proof.
  unfold messageMentionsBot.
  destruct (Js.includes _ _) eqn:Hinc; [apply orb_true_r|].
  rewrite orb_false_r. apply not_true_iff_false. intros Hex.
  apply existsb_exists in Hex as (entity & _ & Hentity).
  apply andb_true_iff in Hentity as [_ Heq]. apply String.eqb_eq in Heq.
  unfold Js.substring in Heq. rewrite toLowerCase_substring in Heq.
  rewrite <- Heq, includes_substring in Hinc. discriminate.
Qed.

(** ** HTML entities *)

Lemma string_length_app (s1 s2 : string) :
  String.length (s1 +:+ s2) = (String.length s1 + String.length s2)%nat.
Proof. induction s1 as [|c s1 IH]; simpl; by rewrite ?IH. Qed.

Lemma replaceAllFrom_length (pat rep : string) (skip : nat) (s : string) :
  (String.length rep ≤ String.length pat)%nat →
  (String.length (replaceAllFrom pat rep skip s) ≤ String.length s - skip)%nat.
Proof.
  intros Hrep. revert skip. induction s as [|c s IH]; intros skip; [simpl; lia|].
  destruct skip as [|k]; cbn [replaceAllFrom].
  - destruct (String.prefix pat (String c s)) eqn:Hp.
    + rewrite string_length_app. specialize (IH (String.length pat - 1)%nat).
      assert (String.length pat ≤ String.length (String c s))%nat.
      { clear -Hp. revert Hp. generalize (String c s). induction pat as [|a p IHp];
          intros [|b t]; simpl; try done; [lia|].
        destruct (ascii_dec a b); [|done]. intros Hp%IHp. lia. }
      simpl in *. lia.
    + specialize (IH 0%nat). simpl. lia.
  - specialize (IH k). simpl. lia.
Qed.

Lemma replaceAll_length (pat rep s : string) :
  (String.length rep ≤ String.length pat)%nat →
  (String.length (replaceAll pat rep s) ≤ String.length s)%nat.
Proof.
  intros Hrep. unfold replaceAll.
  pose proof (replaceAllFrom_length pat rep 0 s Hrep). lia.
Qed.

Lemma replaceAll_no_ampersand (p rep s : string) :
  Js.includes "&" s = false → replaceAll (String "&"%char p) rep s = s.
Proof.
  unfold replaceAll. induction s as [|c s IH]; [done|].
  cbn [Js.includes replaceAllFrom String.prefix].
  destruct (ascii_dec "&"%char c) as [_|Hne].
  { by destruct s. }
  simpl. intros Hs. by rewrite IH.
Qed.

(** X14: [decodeHtmlEntities] never makes a string longer, and it returns
    a string that contains no ampersand as it is. *)
Theorem decodeHtmlEntities_shrinks (str : string) :
  (String.length (decodeHtmlEntities str) ≤ String.length str)%nat
  ∧ (Js.includes "&" str = false → decodeHtmlEntities str = str).
Proof.
  unfold decodeHtmlEntities. destruct (Js.truthy_str str); cbn [negb]; [|done]. split.
  - repeat (eapply Nat.le_trans; [apply replaceAll_length; cbn; lia|]).
    done.
  - intros Hno.
    rewrite (replaceAll_no_ampersand "amp;" _ str Hno).
    rewrite (replaceAll_no_ampersand "lt;" _ str Hno).
    rewrite (replaceAll_no_ampersand "gt;" _ str Hno).
    rewrite (replaceAll_no_ampersand "quot;" _ str Hno).
    apply (replaceAll_no_ampersand "#39;" _ str Hno).
Qed.

(** ** YouTube canonicaliser *)

(** X15: for a link that carries a YouTube video id the result is the
    watch URL with that id and the link's time parameter ([t], or else
    [start]); and when the parser reads that watch URL back (host
    www.youtube.com, the same query pairs), canonicalising it again
    changes nothing. *)
Theorem canonicalizeUrl_idempotent `{Platform} (urlString : string)
    (url canonical : URL.t) (id : string) :
  new_URL urlString = Some url →
  Js.or_null_str (youtubeIdFromUrl urlString) = Some id →
  new_URL (watchUrl (("v", id) :: timeParams url)) = Some canonical →
  URL.hostname canonical = "www.youtube.com" →
  URL.searchParams canonical = ("v", id) :: timeParams url →
  canonicalizeUrl urlString = watchUrl (("v", id) :: timeParams url)
  ∧ canonicalizeUrl (canonicalizeUrl urlString) = canonicalizeUrl urlString.
Proof.
  intros Hurl Hid Hcanon Hhost Hparams.
  assert (Hfirst : canonicalizeUrl urlString = watchUrl (("v", id) :: timeParams url)).
  { unfold canonicalizeUrl. by rewrite Hid, Hurl. }
  split; [done|]. rewrite Hfirst.
  apply or_null_str_Some in Hid as [_ Hne]. apply truthy_str_true in Hne.
  assert (Hid' : youtubeIdFromUrl (watchUrl (("v", id) :: timeParams url)) = Some id).
  { unfold youtubeIdFromUrl. rewrite Hcanon, Hhost, Hparams.
    cbn. by rewrite Hne. }
  unfold canonicalizeUrl at 1. rewrite Hid', Hcanon. cbn [Js.or_null_str].
  rewrite Hne. f_equal. f_equal. rewrite Hparams.
  assert (Hshape : timeParams url = []
                   ∨ ∃ t, Js.truthy_str t = true ∧ timeParams url = [("t", t)]).
  { unfold timeParams.
    destruct (Js.or_null_str _) as [t|] eqn:Ht; [right|by left].
    apply or_null_str_Some in Ht as [_ Htne]. apply truthy_str_true in Htne.
    by exists t. }
  destruct Hshape as [-> | (t & Ht & ->)]; cbn; [done|].
  rewrite Ht. cbn. by rewrite Ht.
Qed.

Lemma canonicalizeUrl_idempotent_witness :
  @canonicalizeUrl examplePlatform
    (@canonicalizeUrl examplePlatform "https://www.youtube.com/watch?v=abc123")
  = @canonicalizeUrl examplePlatform "https://www.youtube.com/watch?v=abc123".
Proof.
  apply (@canonicalizeUrl_idempotent examplePlatform
           "https://www.youtube.com/watch?v=abc123"
           (URL.mk "https:" "www.youtube.com" "/watch" [("v", "abc123")]
              "https://www.youtube.com/watch?v=abc123")
           (URL.mk "https:" "www.youtube.com" "/watch" [("v", "abc123")]
              "https://www.youtube.com/watch?v=abc123")
           "abc123"); reflexivity.
Defined.

(** ** Orchestrator: replies and reach *)

Lemma catchBlock_length (e : env) : (List.length (catchBlock e) ≤ 1)%nat.
Proof. unfold catchBlock. destruct (reply_ok e _); simpl; lia. Qed.

Lemma tryBlock_length (e : env) (st : state) (ctx : Ctx.t) (source : option Z) :
  (List.length (snd (tryBlock e st ctx source)) ≤ 1)%nat.
Proof.
  destruct (tryBlock_used e st ctx source) as [[-> _]|(k & st1 & _ & _ & _ & -> & _)].
  - apply catchBlock_length.
  - simpl. lia.
Qed.

(** X16: one activation of the message handler delivers at most one
    reply. *)
Theorem handler_replies_once `{Platform} (e : env) (st : state) (ctx : Ctx.t) :
  (List.length (snd (handler e st ctx)) ≤ 1)%nat.
Proof.
  unfold handler.
  destruct (isCommand _); [simpl; lia|].
  destruct (shouldHandleMessage (now e) st ctx) as [handle st1].
  destruct handle; cbn [negb]; [|simpl; lia].
  set (found := findUrl ctx _).
  destruct (_ && negb (Js.truthy_ostr (Resolution.url found))).
  { destruct (reply_ok e Reply.InvalidUrl); simpl; lia. }
  destruct (negb (Js.truthy_ostr (Resolution.url found)) || Resolution.invalid found).
  { destruct (negb _); [simpl; lia|].
    destruct (reply_ok e Reply.PromptForLink); simpl; lia. }
  pose proof (tryBlock_length e st1 ctx (Resolution.sourceMessageId found)) as Hlen.
  by destruct (tryBlock e st1 ctx (Resolution.sourceMessageId found)).
Qed.

Lemma sameElsewhere_refl (chatId : Z) (st : state) : sameElsewhere chatId st st.
Proof. by intros other Hne. Qed.

Lemma sameElsewhere_trans (chatId : Z) (st1 st2 st3 : state) :
  sameElsewhere chatId st1 st2 → sameElsewhere chatId st2 st3 →
  sameElsewhere chatId st1 st3.
Proof.
  intros H12 H23 other Hne.
  destruct (H12 other Hne) as (? & ? & ? & ?).
  destruct (H23 other Hne) as (? & ? & ? & ?).
  repeat split; congruence.
Qed.

Lemma rememberLastUserMessage_elsewhere (now : Z) (st : state) (message : Message.t) :
  sameElsewhere (Chat.id (Message.chat message)) st
    (rememberLastUserMessage now st message).
Proof.
  intros other Hne.
  destruct (rememberLastUserMessage_frame now st message) as (-> & -> & ->).
  rewrite rememberLastUserMessage_slot.
  destruct (snapshotUserMessage now message); [|done].
  by rewrite lookup_insert_ne.
Qed.

Lemma markPrompt_elsewhere (now : Z) (st : state) (chatId : Z) :
  sameElsewhere chatId st (markPrompt now st chatId).
Proof. intros other Hne. simpl. by rewrite lookup_insert_ne. Qed.

Lemma shouldHandleMessage_elsewhere (now : Z) (st : state) (ctx : Ctx.t) :
  sameElsewhere (Chat.id (Ctx.chat ctx)) st (snd (shouldHandleMessage now st ctx)).
Proof.
  unfold shouldHandleMessage, consumePromptWindow.
  destruct (isPrivate ctx); [apply sameElsewhere_refl|].
  destruct (messageMentionsBot ctx); [apply sameElsewhere_refl|].
  destruct (isReplyToBot ctx); [apply sameElsewhere_refl|].
  destruct (isWithinPromptWindow _ _ _); [|apply sameElsewhere_refl].
  intros other Hne. simpl. by rewrite lookup_delete_ne.
Qed.

Lemma ensureRoom_elsewhere (e : env) (st st1 : state) (chatId : Z) (streamkey : string) :
  ensureRoom e st chatId = Some (streamkey, st1) → sameElsewhere chatId st st1.
Proof.
  unfold ensureRoom.
  destruct (Js.or_null_str _); [intros [= _ <-]; apply sameElsewhere_refl|].
  destruct (createRoom_result e); [|done].
  intros [= _ <-] other Hne. simpl. by rewrite lookup_insert_ne.
Qed.

Lemma tryBlock_elsewhere (e : env) (st : state) (ctx : Ctx.t) (source : option Z) :
  sameElsewhere (Chat.id (Ctx.chat ctx)) st (fst (tryBlock e st ctx source)).
Proof.
  unfold tryBlock.
  destruct (ensureRoom e st _) as [[streamkey st1]|] eqn:E;
    [|apply sameElsewhere_refl].
  apply ensureRoom_elsewhere in E.
  destruct (addToPlaylist_ok e); cbn [negb]; [|done].
  destruct (reply_ok e _); cbn [negb]; [|done].
  eapply sameElsewhere_trans; [exact E|].
  intros other Hne. simpl.
  destruct (markMessagesUsed_lookup (Chat.id (Ctx.chat ctx))
              (idsToMark source (Ctx.message ctx)) (usedMessagesByChat st1))
    as [_ Hother].
  by rewrite Hother.
Qed.

Lemma finallyBlock_elsewhere (now : Z) (st : state) (ctx : Ctx.t)
    (priorMessage : option Snapshot.t) :
  sameElsewhere (Chat.id (Ctx.chat ctx)) st (finallyBlock now st ctx priorMessage).
Proof.
  unfold finallyBlock.
  eapply sameElsewhere_trans; [|apply rememberLastUserMessage_elsewhere].
  destruct priorMessage; [|apply sameElsewhere_refl].
  intros other Hne. simpl. by rewrite lookup_delete_ne.
Qed.

(** X17: handling a message changes nothing that belongs to another
    chat: the invitation window, the last-message slot, the used ids and
    the room of every other chat are as before. *)
Theorem handler_other_chats `{Platform} (e : env) (st : state) (ctx : Ctx.t) :
  sameElsewhere (Chat.id (Ctx.chat ctx)) st (fst (handler e st ctx)).
Proof.
  unfold handler.
  destruct (isCommand _); [apply sameElsewhere_refl|].
  pose proof (shouldHandleMessage_elsewhere (now e) st ctx) as H1.
  destruct (shouldHandleMessage (now e) st ctx) as [handle st1]. simpl in H1.
  assert (Hrem : ∀ st', sameElsewhere (Chat.id (Ctx.chat ctx)) st st' →
            sameElsewhere (Chat.id (Ctx.chat ctx)) st
              (rememberLastUserMessage (now e) st' (Ctx.message ctx))).
  { intros st' Hst'. eapply sameElsewhere_trans; [exact Hst'|].
    apply rememberLastUserMessage_elsewhere. }
  destruct handle; cbn [negb]; [|by apply Hrem].
  set (prior := priorMessageOf (now e) st1 ctx).
  set (found := findUrl ctx prior).
  destruct (_ && negb (Js.truthy_ostr (Resolution.url found))).
  { destruct (reply_ok e Reply.InvalidUrl); [by apply Hrem|done]. }
  destruct (negb (Js.truthy_ostr (Resolution.url found)) || Resolution.invalid found).
  { destruct (negb _); [by apply Hrem|].
    destruct (reply_ok e Reply.PromptForLink); [|done].
    apply Hrem. eapply sameElsewhere_trans; [exact H1|]. apply markPrompt_elsewhere. }
  pose proof (tryBlock_elsewhere e st1 ctx (Resolution.sourceMessageId found)) as H2.
  destruct (tryBlock e st1 ctx (Resolution.sourceMessageId found)) as [st2 replies].
  simpl in *.
  eapply sameElsewhere_trans; [exact H1|].
  eapply sameElsewhere_trans; [exact H2|].
  apply finallyBlock_elsewhere.
Qed.

(** ** Orchestrator: outcomes *)

(** A success reply comes from the success path of [try] only. *)
Lemma handler_added_inv `{Platform} (e : env) (st : state) (ctx : Ctx.t)
    (roomLink : string) :
  Reply.Added roomLink ∈ snd (handler e st ctx) →
  ∃ source,
    usedMessagesByChat (fst (handler e st ctx))
    = markMessagesUsed (Chat.id (Ctx.chat ctx)) (idsToMark source (Ctx.message ctx))
        (usedMessagesByChat st)
    ∧ ∀ snapshot, snapshotUserMessage (now e) (Ctx.message ctx) = Some snapshot →
        lastUserMessages (fst (handler e st ctx)) !! Chat.id (Ctx.chat ctx)
        = Some snapshot.
Proof.
  unfold handler.
  destruct (isCommand _); [by intros ?%elem_of_nil|].
  destruct (shouldHandleMessage_frame (now e) st ctx) as (_ & Hu1 & _).
  destruct (shouldHandleMessage (now e) st ctx) as [handle st1]. simpl in Hu1.
  destruct handle; cbn [negb]; [|by intros ?%elem_of_nil].
  set (prior := priorMessageOf (now e) st1 ctx).
  set (found := findUrl ctx prior).
  destruct (_ && negb (Js.truthy_ostr (Resolution.url found))).
  { destruct (reply_ok e Reply.InvalidUrl); simpl.
    - by intros ?%list_elem_of_singleton.
    - by intros ?%elem_of_nil. }
  destruct (negb (Js.truthy_ostr (Resolution.url found)) || Resolution.invalid found).
  { destruct (negb _); [by intros ?%elem_of_nil|].
    destruct (reply_ok e Reply.PromptForLink); simpl.
    - by intros ?%list_elem_of_singleton.
    - by intros ?%elem_of_nil. }
  destruct (tryBlock_used e st1 ctx (Resolution.sourceMessageId found))
    as [[Hr _]|(k & st' & _ & _ & _ & _ & Hu)];
    destruct (tryBlock e st1 ctx (Resolution.sourceMessageId found)) as [st2 replies];
    simpl in *.
  - subst replies. unfold catchBlock. destruct (reply_ok e _).
    + by intros ?%list_elem_of_singleton.
    + by intros ?%elem_of_nil.
  - intros _. exists (Resolution.sourceMessageId found).
    destruct (finallyBlock_frame (now e) st2 ctx prior) as (_ & ->).
    split; [by rewrite Hu, Hu1|].
    intros snapshot Hsnap. rewrite finallyBlock_slot, Hsnap. cbv zeta.
    apply lookup_insert_eq.
Qed.

(** X18: a message whose link was added cannot be picked up again as the
    remembered message: after an activation that delivered the success
    reply for a message of a non-bot sender (with a non-zero id that was
    not used before), [recentPreviousMessage] returns nothing for that
    chat, at any time and for any sender. *)
Theorem added_message_not_reusable `{Platform} (e : env) (st : state) (ctx : Ctx.t)
    (roomLink : string) (sender : User.t) (later : Z) (fromId : option Z) :
  storeOk (usedMessagesByChat st) →
  Reply.Added roomLink ∈ snd (handler e st ctx) →
  Message.from (Ctx.message ctx) = Some sender →
  User.is_bot sender = false →
  Message.message_id (Ctx.message ctx) ≠ 0 →
  isMessageUsed st (Chat.id (Ctx.chat ctx)) (Message.message_id (Ctx.message ctx))
    = false →
  recentPreviousMessage later (fst (handler e st ctx)) (Chat.id (Ctx.chat ctx)) fromId
  = None.
Proof.
  intros Hok Hadded Hfrom Hbot Hnz Hunused.
  apply handler_added_inv in Hadded as (source & Hused & Hslot).
  set (mid := Message.message_id (Ctx.message ctx)) in *.
  assert (Hsnap : ∃ snapshot, snapshotUserMessage (now e) (Ctx.message ctx) = Some snapshot
                              ∧ Snapshot.message_id snapshot = mid).
  { unfold snapshotUserMessage. rewrite Hfrom, Hbot. by eexists. }
  destruct Hsnap as (snapshot & Hsnap & Hmid).
  unfold recentPreviousMessage. rewrite (Hslot snapshot Hsnap).
  assert (Hnow : isMessageUsed (fst (handler e st ctx)) (Chat.id (Ctx.chat ctx))
                   (Snapshot.message_id snapshot) = true).
  { rewrite Hmid.
    destruct (markMessagesUsed_new_member (Chat.id (Ctx.chat ctx))
                (idsToMark source (Ctx.message ctx)) (usedMessagesByChat st) mid)
      as (bucket & Hb & Hin); [done| | | done | |].
    - unfold idsToMark. simpl. destruct (Js.or_null_num source); simpl;
        destruct (Js.truthy_num _); simpl; lia.
    - unfold idsToMark. apply list_elem_of_omap. exists (Some mid).
      split; [apply list_elem_of_further, list_elem_of_here|].
      by apply or_null_num_Some.
    - unfold isMessageUsed, Js.truthy_num in Hunused. unfold bucketBefore.
      apply Z.eqb_neq in Hnz. rewrite Hnz in Hunused. simpl in Hunused.
      destruct (usedMessagesByChat st !! Chat.id (Ctx.chat ctx)) as [b|]; simpl.
      + by apply bool_decide_eq_false in Hunused.
      + set_solver.
    - unfold isMessageUsed, Js.truthy_num. apply Z.eqb_neq in Hnz.
      rewrite Hnz, Hused, Hb. simpl. by apply bool_decide_eq_true. }
  rewrite Hnow. by destruct (Js.or_null_num fromId) as [f|]; [destruct (negb _)|].
Qed.

Lemma added_message_not_reusable_witness :
  recentPreviousMessage 1011000
    (fst (@handler examplePlatform envUp initialState
            (ctxOf (msgMentionUrl 2 (Some alice)))))
    (-100) (Some 7) = None.
Proof.
  apply (@added_message_not_reusable examplePlatform envUp initialState
           (ctxOf (msgMentionUrl 2 (Some alice))) "https://w2g.tv/rooms/room1" alice).
  - intros c b Hc. simpl in Hc. rewrite lookup_empty in Hc. discriminate.
  - vm_compute. apply list_elem_of_here.
  - reflexivity.
  - reflexivity.
  - discriminate.
  - reflexivity.
Defined.

Lemma findLoop_nothing `{Platform} (candidates : list Candidate.t) :
  (∀ candidate, candidate ∈ candidates → Js.or_null_str (Candidate.raw candidate) = None) →
  findLoop candidates = Resolution.mk None false None.
Proof.
  induction candidates as [|c rest IH]; intros Hnone; [done|].
  simpl. rewrite (Hnone c (list_elem_of_here _ _)).
  apply IH. intros c' Hc'. apply Hnone. by apply list_elem_of_further.
Qed.

(** X19: an explicit interaction that brings no link at all (nothing in
    the message, nothing in a usable replied-to message, no remembered
    link) is answered with the prompt, when that can be delivered; it
    opens the chat's invitation window at the current time and changes
    neither used ids nor rooms. *)
Theorem explicit_interaction_without_link_prompts `{Platform} (e : env) (st : state)
    (ctx : Ctx.t) :
  isCommand (Ctx.message ctx) = false →
  isPrivate ctx || messageMentionsBot ctx || isReplyToBot ctx = true →
  extractFromEntities (Ctx.message ctx) = None →
  (∀ reply, usableReply (Ctx.message ctx) = Some reply →
            extractFromEntities reply = None) →
  (∀ prev, priorMessageOf (now e) st ctx = Some prev →
           Js.truthy_ostr (Snapshot.url prev) = false) →
  reply_ok e Reply.PromptForLink = true →
  snd (handler e st ctx) = [Reply.PromptForLink]
  ∧ promptWindows (fst (handler e st ctx)) !! Chat.id (Ctx.chat ctx) = Some (now e)
  ∧ usedMessagesByChat (fst (handler e st ctx)) = usedMessagesByChat st
  ∧ rooms (fst (handler e st ctx)) = rooms st.
Proof.
  intros Hcmd Hexplicit Hcur Hreply Hprior Hdeliver.
  assert (Hhandle : shouldHandleMessage (now e) st ctx = (true, st)).
  { unfold shouldHandleMessage.
    destruct (isPrivate ctx); [done|].
    destruct (messageMentionsBot ctx); [done|].
    destruct (isReplyToBot ctx); [done|]. discriminate. }
  assert (Hfound : findUrl ctx (priorMessageOf (now e) st ctx)
                   = Resolution.mk None false None).
  { apply findLoop_nothing. intros c Hc. unfold candidatesOf in Hc.
    apply elem_of_app in Hc as [Hc|Hc].
    - apply elem_of_cons in Hc as [->|Hc]; [simpl; by rewrite Hcur|].
      apply list_elem_of_singleton in Hc as ->.
      destruct (usableReply (Ctx.message ctx)) as [reply|]; [|done].
      simpl. by rewrite (Hreply reply eq_refl).
    - destruct (priorMessageOf (now e) st ctx) as [prev|]; [|by apply elem_of_nil in Hc].
      rewrite (Hprior prev eq_refl) in Hc. by apply elem_of_nil in Hc. }
  assert (Hexplicit' : messageMentionsBot ctx || isReplyToBot ctx || isPrivate ctx = true).
  { destruct (isPrivate ctx), (messageMentionsBot ctx), (isReplyToBot ctx); done. }
  unfold handler. rewrite Hcmd, Hhandle. cbn [negb].
  rewrite Hfound. cbn. rewrite Hexplicit', Hdeliver. cbn [negb fst snd].
  destruct (rememberLastUserMessage_frame (now e)
              (markPrompt (now e) st (Chat.id (Ctx.chat ctx))) (Ctx.message ctx))
    as (-> & -> & ->).
  split; [done|]. split; [apply lookup_insert_eq|]. done.
Qed.

Lemma explicit_interaction_without_link_prompts_witness :
  snd (@handler examplePlatform envUp initialState
         (ctxOf (msgMention 2 (Some alice) None))) = [Reply.PromptForLink].
Proof.
  apply (@explicit_interaction_without_link_prompts examplePlatform envUp initialState
           (ctxOf (msgMention 2 (Some alice) None)));
    [reflexivity | reflexivity | reflexivity | | | reflexivity].
  - intros reply Hreply. discriminate Hreply.
  - intros prev Hprev. discriminate Hprev.
Defined.

(** X20: a link in the current message that the parser rejects ends the
    search: the only reply is the invalid-URL notice, no link of a
    replied-to or remembered message is used, nothing is marked used, no
    room is created and no invitation window is opened (the message id
    being non-zero). *)
Theorem invalid_current_link_notice `{Platform} (e : env) (st st1 : state)
    (ctx : Ctx.t) (raw : string) :
  isCommand (Ctx.message ctx) = false →
  shouldHandleMessage (now e) st ctx = (true, st1) →
  extractFromEntities (Ctx.message ctx) = Some raw →
  new_URL (normalizeCandidate raw) = None →
  Message.message_id (Ctx.message ctx) ≠ 0 →
  snd (handler e st ctx)
  = (if reply_ok e Reply.InvalidUrl then [Reply.InvalidUrl] else [])
  ∧ promptWindows (fst (handler e st ctx)) = promptWindows st1
  ∧ usedMessagesByChat (fst (handler e st ctx)) = usedMessagesByChat st
  ∧ rooms (fst (handler e st ctx)) = rooms st.
Proof.
  intros Hcmd Hhandle Hraw Hparse Hnz.
  destruct (shouldHandleMessage_frame (now e) st ctx) as (_ & Hu1 & Hr1).
  rewrite Hhandle in Hu1, Hr1. simpl in Hu1, Hr1.
  assert (Hne : Js.truthy_str raw = true)
    by (by apply truthy_str_true, (extractFromEntities_nonempty (Ctx.message ctx))).
  assert (Hfound : findUrl ctx (priorMessageOf (now e) st1 ctx)
                   = Resolution.mk None true
                       (Some (Message.message_id (Ctx.message ctx)))).
  { unfold findUrl, candidatesOf. simpl. rewrite Hraw. cbn [Js.or_null_str].
    rewrite Hne. unfold validateCandidate. rewrite Hne, Hparse. simpl.
    unfold Js.truthy_num. apply Z.eqb_neq in Hnz. by rewrite Hnz. }
  unfold handler. rewrite Hcmd, Hhandle. cbn [negb].
  rewrite Hfound.
  cbn [Resolution.url Resolution.invalid Resolution.sourceMessageId Js.truthy_ostr].
  rewrite bool_decide_eq_true_2 by done. cbn [negb andb].
  destruct (reply_ok e Reply.InvalidUrl); cbn [fst snd]; [|done].
  by destruct (rememberLastUserMessage_frame (now e) st1 (Ctx.message ctx))
    as (-> & -> & ->).
Qed.

Lemma invalid_current_link_notice_witness :
  snd (@handler examplePlatform envUp stRemembered
         (ctxOf (Message.mk 4 groupChat (Some alice) 1010 (Some "@queuebot exa mple")
                   None
                   (Some [Entity.mk "mention" 0 9 None; Entity.mk "url" 10 8 None])
                   None None)))
  = [Reply.InvalidUrl].
Proof.
  apply (@invalid_current_link_notice examplePlatform envUp stRemembered stRemembered
           (ctxOf (Message.mk 4 groupChat (Some alice) 1010
                     (Some "@queuebot exa mple") None
                     (Some [Entity.mk "mention" 0 9 None; Entity.mk "url" 10 8 None])
                     None None))
           "exa mple"); [reflexivity | reflexivity | reflexivity | reflexivity | discriminate].
Defined.

(** X22: when the current message yields nothing, the replied-to message
    comes before the remembered one: a string extracted from a usable
    reply that validates, or that the parser rejects, decides the result
    with the reply as source; only when the reply yields nothing either
    does the remembered link decide, with the remembered message as
    source, and if that link validates to nothing the result is "no URL
    found". *)
Theorem findUrl_fallback_order `{Platform} (ctx : Ctx.t)
    (previousMessage : option Snapshot.t) :
  extractFromEntities (Ctx.message ctx) = None →
  (∀ reply raw,
     usableReply (Ctx.message ctx) = Some reply →
     extractFromEntities reply = Some raw →
     Js.truthy_ostr (Validated.url (validateCandidate raw)) = true
     ∨ Validated.invalid (validateCandidate raw) = true →
     findUrl ctx previousMessage
     = Resolution.mk (Validated.url (validateCandidate raw))
         (Validated.invalid (validateCandidate raw))
         (Js.or_null_num (Some (Message.message_id reply))))
  ∧ ((∀ reply, usableReply (Ctx.message ctx) = Some reply →
               extractFromEntities reply = None) →
     ∀ prev raw,
       previousMessage = Some prev → Snapshot.url prev = Some raw → raw ≠ "" →
       findUrl ctx previousMessage
       = if Js.truthy_ostr (Validated.url (validateCandidate raw))
            || Validated.invalid (validateCandidate raw)
         then Resolution.mk (Validated.url (validateCandidate raw))
                (Validated.invalid (validateCandidate raw))
                (Js.or_null_num (Some (Snapshot.message_id prev)))
         else Resolution.mk None false None).
Proof.
  intros Hcur. unfold findUrl, candidatesOf. split.
  - intros reply raw Hreply Hraw Hverdict. rewrite Hcur, Hreply. simpl.
    rewrite Hraw. apply extractFromEntities_nonempty, truthy_str_true in Hraw.
    cbn [Js.or_null_str]. rewrite Hraw.
    destruct (Js.truthy_ostr (Validated.url (validateCandidate raw))); [done|].
    by destruct Hverdict as [?| ->].
  - intros Hreply prev raw -> Hurl Hne. apply truthy_str_true in Hne.
    rewrite Hcur, Hurl. cbn [Js.truthy_ostr]. rewrite Hne. simpl.
    assert (Hsecond : Js.or_null_str
                        (Candidate.raw
                           match usableReply (Ctx.message ctx) with
                           | Some reply =>
                               Candidate.mk (extractFromEntities reply)
                                 (Some (Message.message_id reply))
                           | None => Candidate.mk None None
                           end) = None).
    { destruct (usableReply (Ctx.message ctx)) as [reply|]; [|done].
      simpl. by rewrite (Hreply reply eq_refl). }
    rewrite Hsecond, Hne.
    destruct (Js.truthy_ostr (Validated.url (validateCandidate raw))); [done|].
    by destruct (Validated.invalid (validateCandidate raw)).
Qed.

Lemma findUrl_fallback_order_witness :
  @findUrl examplePlatform (ctxOf (msgMention 3 (Some alice) None)) (Some snapA)
  = Resolution.mk (Some "https://example.com/a") false (Some 1).
Proof.
  destruct (@findUrl_fallback_order examplePlatform
              (ctxOf (msgMention 3 (Some alice) None)) (Some snapA))
    as [_ Hremembered]; [reflexivity|].
  assert (Hnoreply : ∀ reply,
            usableReply (Ctx.message (ctxOf (msgMention 3 (Some alice) None)))
            = Some reply → extractFromEntities reply = None).
  { intros reply Hreply. discriminate Hreply. }
  apply (Hremembered Hnoreply snapA "https://example.com/a");
    [reflexivity | reflexivity | discriminate].
Defined.

(** X23: an explicit interaction never closes an invitation window: when
    a message in a direct conversation, a mention or a reply to the bot
    is handled while the chat's window is open (at a time other than 0),
    the window is still open after the handler, either untouched or
    opened afresh at the current time. *)
Theorem explicit_interaction_keeps_window `{Platform} (e : env) (st : state)
    (ctx : Ctx.t) :
  isPrivate ctx || messageMentionsBot ctx || isReplyToBot ctx = true →
  now e ≠ 0 →
  isWithinPromptWindow (now e) st (Chat.id (Ctx.chat ctx)) = true →
  (promptWindows (fst (handler e st ctx)) = promptWindows st
   ∨ promptWindows (fst (handler e st ctx))
     = <[Chat.id (Ctx.chat ctx) := now e]> (promptWindows st))
  ∧ isWithinPromptWindow (now e) (fst (handler e st ctx)) (Chat.id (Ctx.chat ctx))
    = true.
Proof.
  intros Hexplicit Hnow Hopen.
  assert (Hcases : promptWindows (fst (handler e st ctx)) = promptWindows st
                   ∨ promptWindows (fst (handler e st ctx))
                     = <[Chat.id (Ctx.chat ctx) := now e]> (promptWindows st)).
  { assert (Hhandle : shouldHandleMessage (now e) st ctx = (true, st)).
    { unfold shouldHandleMessage.
      destruct (isPrivate ctx); [done|].
      destruct (messageMentionsBot ctx); [done|].
      destruct (isReplyToBot ctx); [done|]. discriminate. }
    unfold handler. destruct (isCommand _); [by left|].
    rewrite Hhandle. cbn [negb].
    set (prior := priorMessageOf (now e) st ctx).
    set (found := findUrl ctx prior).
    destruct (_ && negb (Js.truthy_ostr (Resolution.url found))).
    { destruct (reply_ok e Reply.InvalidUrl); [|by left]. left. simpl.
      by destruct (rememberLastUserMessage_frame (now e) st (Ctx.message ctx))
        as (-> & _). }
    destruct (negb (Js.truthy_ostr (Resolution.url found)) || Resolution.invalid found).
    { destruct (negb _).
      { left. simpl.
        by destruct (rememberLastUserMessage_frame (now e) st (Ctx.message ctx))
          as (-> & _). }
      destruct (reply_ok e Reply.PromptForLink); [|by left]. right. simpl.
      by destruct (rememberLastUserMessage_frame (now e)
                     (markPrompt (now e) st (Chat.id (Ctx.chat ctx)))
                     (Ctx.message ctx)) as (-> & _). }
    left.
    destruct (tryBlock_frame e st ctx (Resolution.sourceMessageId found)) as (Hp & _).
    destruct (tryBlock e st ctx (Resolution.sourceMessageId found)) as [st2 replies].
    simpl in *. by destruct (finallyBlock_frame (now e) st2 ctx prior) as (-> & _). }
  split; [done|].
  unfold isWithinPromptWindow in *. destruct Hcases as [-> | ->]; [done|].
  rewrite lookup_insert_eq. unfold Js.truthy_num.
  apply Z.eqb_neq in Hnow. rewrite Hnow. simpl. apply Z.leb_le.
  unfold PROMPT_GRACE_PERIOD_MS. lia.
Qed.

Lemma explicit_interaction_keeps_window_witness :
  isWithinPromptWindow (now envUp)
    (fst (@handler examplePlatform envUp stPrompted
            (ctxOf (msgMentionUrl 2 (Some alice)))))
    (Chat.id groupChat) = true.
Proof.
  apply (@explicit_interaction_keeps_window examplePlatform envUp stPrompted
           (ctxOf (msgMentionUrl 2 (Some alice))));
    [reflexivity | discriminate | reflexivity].
Defined.
